(** * Backpack override detector: a shallow embedding and its properties

  The development follows [backpack-override-detector.js]: the
  [EventEmitter] class, the rule lookup [findCssRules], the three selector
  predicates, the override resolver inside [scan], and the timer that
  re-runs [update] after DOM mutations.

  What the browser provides (the selector engine behind [el.matches], the
  typed-OM value objects with their [toString], the access check on a
  sheet's rule list, the timer table of the window) is data of the model:
  an element carries its own [matches] method, a style sheet carries the
  outcome of reading its rules, and values come with a [ToString]
  instance. *)

From Stdlib Require Import ZArith Ascii String List Bool Lia.
From stdpp Require Import base option list strings gmap.
From stdpp Require Import pretty.

Import ListNotations.
Local Open Scope string_scope.
Local Open Scope list_scope.

(** ** JavaScript completions *)

(** An evaluation either completes normally with a value or throws. *)
Inductive completion (E A : Type) : Type :=
| Normal (a : A)
| Throw (e : E).
Arguments Normal {E A} a.
Arguments Throw {E A} e.

(** ** String helpers *)

Module Str.

(** [s.startsWith(p)] *)
Definition startsWith (s p : string) : bool := String.prefix p s.

(** The character class [[a-zA-Z0-9_-]]. *)
Definition isClassNameChar (c : ascii) : bool :=
  let n := nat_of_ascii c in
  (Nat.leb 97 n && Nat.leb n 122)        (* a-z *)
  || (Nat.leb 65 n && Nat.leb n 90)      (* A-Z *)
  || (Nat.leb 48 n && Nat.leb n 57)      (* 0-9 *)
  || Nat.eqb n 95                        (* _ *)
  || Nat.eqb n 45.                       (* - *)

Fixpoint allChars (p : ascii -> bool) (s : string) : bool :=
  match s with
  | EmptyString => true
  | String c rest => p c && allChars p rest
  end.

(** [s.match(/^\.[a-zA-Z0-9_-]+$/)], as a truth value. *)
Definition matchesSingleClass (s : string) : bool :=
  match s with
  | String "."%char (String c rest) => isClassNameChar c && allChars isClassNameChar rest
  | _ => false
  end.

(** [s.split(sep)] for a one-character separator. *)
Fixpoint splitOn (sep : ascii) (s : string) : list string :=
  match s with
  | EmptyString => [EmptyString]
  | String c rest =>
      if Ascii.eqb c sep then EmptyString :: splitOn sep rest
      else match splitOn sep rest with
           | [] => [String c EmptyString]
           | w :: ws => String c w :: ws
           end
  end.

End Str.

(** ** The CSS object model as the script reads it *)

(** Typed-OM values are only ever compared through [toString()]. *)
Class ToString (V : Type) := toString : V -> string.

Section Detector.

Context {V : Type} `{ToString V}.
(** The exceptions [el.matches] and the rule-list getter may throw. *)
Context {Exn : Type}.

(** A style rule: its selector text and the entries of its [styleMap], in
    iteration order. *)
Record CSSStyleRule : Type := {
  selectorText : string;
  styleMap : list (string * V)
}.

(** A style sheet: reading [sheet.rules || sheet.cssRules] yields the rule
    list or throws (a cross-origin sheet). *)
Record CSSStyleSheet : Type := {
  cssRules : completion Exn (list CSSStyleRule)
}.

(** An element: its local name (the lower-case tag name that type selectors
    are matched against in an HTML document), class list, and its [matches]
    method, which throws on a selector it cannot evaluate. *)
Record Element : Type := {
  localName : string;
  classList : list string;
  matches : string -> completion Exn bool
}.

Record Document : Type := {
  allElements : list Element;      (* in document order *)
  styleSheets : list CSSStyleSheet
}.

(** [document.querySelectorAll] for a comma-separated list of type
    selectors, the only form the script uses. *)
Definition querySelectorAll (d : Document) (selectors : string) : list Element :=
  let tags := Str.splitOn "," selectors in
  List.filter (fun e => existsb (String.eqb (localName e)) tags) (allElements d).

(** *** findCssRules *)

(** The inner [forEach]: [ret] is pushed to as the rules are visited; a
    throwing [matches] leaves the loop with what was pushed so far. *)
Fixpoint pushMatching (el : Element) (rules : list CSSStyleRule)
    (ret : list CSSStyleRule) : list CSSStyleRule * completion Exn unit :=
  match rules with
  | [] => (ret, Normal tt)
  | r :: rest =>
      match matches el (selectorText r) with
      | Throw e => (ret, Throw e)
      | Normal true => pushMatching el rest (ret ++ [r])
      | Normal false => pushMatching el rest ret
      end
  end.

(** The body of the outer [forEach]: a [try] around the rule-list read and
    the inner loop, with an empty [catch]. *)
Definition visitSheet (el : Element) (ret : list CSSStyleRule)
    (sheet : CSSStyleSheet) : list CSSStyleRule :=
  match cssRules sheet with
  | Throw _ => ret
  | Normal rules => fst (pushMatching el rules ret)
  end.

Definition findCssRulesIn (el : Element) (sheets : list CSSStyleSheet)
  : list CSSStyleRule :=
  fold_left (visitSheet el) sheets [].

Definition findCssRules (d : Document) (el : Element) : list CSSStyleRule :=
  findCssRulesIn el (styleSheets d).

(** *** Selector predicates *)

Definition hasOwnNonBackpackClass (element : Element) : bool :=
  existsb (fun cn => negb (Str.startsWith cn "Bpk")) (classList element).

Definition isBackpackClassRule (r : CSSStyleRule) : bool :=
  Str.startsWith (selectorText r) ".Bpk".

Definition isNonBackpackClassRule (r : CSSStyleRule) : bool :=
  Str.startsWith (selectorText r) "." && Str.matchesSingleClass (selectorText r).

(** *** The resolver *)

Record PropertyOverride : Type := {
  key : string;
  before : string;
  after : string;
  rule : string
}.

Definition getValue (v : V) : string := toString v.

(** [afterRuleProps.find(([bKey]) => bKey === key)] *)
Definition findProp (k : string) (props : list (string * V)) : option (string * V) :=
  List.find (fun p => String.eqb (fst p) k) props.

(** The [for (const afterRule of afterRules)] loop for one declaration
    [(k, value)] of [r]; [None] stands for [undefined]. *)
Fixpoint checkAfterRules (r : CSSStyleRule) (k : string) (value : V)
    (afterRules : list CSSStyleRule) : option PropertyOverride :=
  match afterRules with
  | [] => None
  | afterRule :: rest =>
      match findProp k (styleMap afterRule) with
      | None => checkAfterRules r k value rest
      | Some matchingProp =>
          if negb (Str.startsWith (selectorText afterRule) ".Bpk") then None
          else if String.eqb (getValue (snd matchingProp)) (getValue value) then None
          else Some {| key := k;
                       before := getValue value;
                       after := getValue (snd matchingProp);
                       rule := selectorText r |}
      end
  end.

(** The callback of [properties.map]: slice, reverse, loop. *)
Definition checkProperty (rules : list CSSStyleRule) (index : nat)
    (r : CSSStyleRule) (prop : string * V) : option PropertyOverride :=
  let afterRules := rev (skipn (index + 1) rules) in
  checkAfterRules r (fst prop) (snd prop) afterRules.

(** [.filter((p) => p)] on an array of records and [undefined]s. *)
Fixpoint filterDefined {A : Type} (l : list (option A)) : list A :=
  match l with
  | [] => []
  | Some a :: rest => a :: filterDefined rest
  | None :: rest => filterDefined rest
  end.

(** The [overridden] list computed for the rule at [index]. *)
Definition overridden (rules : list CSSStyleRule) (index : nat)
    (r : CSSStyleRule) : list PropertyOverride :=
  filterDefined (List.map (checkProperty rules index r) (styleMap r)).

(** The callback of [rules.reduce]. *)
Definition reducer (rules : list CSSStyleRule) (acc : list PropertyOverride)
    (r : CSSStyleRule) (index : nat) : list PropertyOverride :=
  if isBackpackClassRule r || negb (isNonBackpackClassRule r) then acc
  else
    let o := overridden rules index r in
    if Nat.ltb 0 (length o) then acc ++ o else acc.

(** [Array.prototype.reduce] with the index passed to the callback. *)
Fixpoint reduceFrom {A B : Type} (f : B -> A -> nat -> B) (l : list A)
    (index : nat) (acc : B) : B :=
  match l with
  | [] => acc
  | x :: rest => reduceFrom f rest (S index) (f acc x index)
  end.

Definition computeOverriddenProperties (rules : list CSSStyleRule) : list PropertyOverride :=
  reduceFrom (reducer rules) rules 0 [].

(** *** scan *)

Record ScanResult : Type := {
  element : Element;
  overriddenProperties : list PropertyOverride
}.

(** The callback of [elements.map]; [None] stands for [false]. *)
Definition scanElement (d : Document) (e : Element) : option ScanResult :=
  if negb (hasOwnNonBackpackClass e) then None
  else
    let rules := findCssRules d e in
    Some {| element := e; overriddenProperties := computeOverriddenProperties rules |}.

(** [.filter((p) => p && p.overriddenProperties.length > 0)] *)
Definition surfaced (p : option ScanResult) : bool :=
  match p with
  | None => false
  | Some res => Nat.ltb 0 (length (overriddenProperties res))
  end.

Definition scan (d : Document) : list ScanResult :=
  let elements := querySelectorAll d "div,span,h1,h2,h3,h4,li,a,button" in
  filterDefined (List.filter surfaced (List.map (scanElement d) elements)).

End Detector.

Arguments CSSStyleRule V : clear implicits.
Arguments CSSStyleSheet V Exn : clear implicits.
Arguments Element Exn : clear implicits.
Arguments Document V Exn : clear implicits.
Arguments ScanResult Exn : clear implicits.

(** ** The vocabulary of the specification, over the definitions above *)

Section Vocabulary.

Context {V : Type} `{ToString V}.

(** A rule declares property [P] when the lookup in its style map finds an
    entry. *)
Definition declares (r : CSSStyleRule V) (P : string) : bool :=
match findProp P (styleMap r) with
| Some _ => true
| None => false
end.

(** The three classes of rules: Framework, AuthorCandidate, Irrelevant. *)
Definition isFramework (r : CSSStyleRule V) : bool := isBackpackClassRule r.

Definition isAuthorCandidate (r : CSSStyleRule V) : bool :=
negb (isBackpackClassRule r) && isNonBackpackClassRule r.

Definition isIrrelevant (r : CSSStyleRule V) : bool :=
negb (isFramework r) && negb (isAuthorCandidate r).

(** What a rule adds to the override list, given the rules after it in
    cascade order. *)
Definition contribution (r : CSSStyleRule V) (rest : list (CSSStyleRule V))
  : list PropertyOverride :=
if isAuthorCandidate r
then filterDefined
       (List.map (fun p => checkAfterRules r (fst p) (snd p) (rev rest)) (styleMap r))
else [].

(** The override list, by recursion on the rule list instead of by index. *)
Fixpoint resolveFrom (rules : list (CSSStyleRule V)) : list PropertyOverride :=
match rules with
| [] => []
| r :: rest => contribution r rest ++ resolveFrom rest
end.

(** The overrides of a list that are about property [P]. *)
Definition overridesFor (P : string) (l : list PropertyOverride) : list PropertyOverride :=
List.filter (fun o => String.eqb (key o) P) l.

End Vocabulary.

(** What per-rule recovery from a selector that cannot be evaluated would
    give: every rule of every readable sheet whose selector evaluates and
    matches. *)
Definition matched {Exn : Type} (el : Element Exn) {V : Type} (r : CSSStyleRule V) : bool :=
match matches el (selectorText r) with
| Normal true => true
| _ => false
end.

Definition findCssRules_perRuleRecovery {V Exn : Type} (el : Element Exn)
  (sheets : list (CSSStyleSheet V Exn)) : list (CSSStyleRule V) :=
flat_map
  (fun sheet => match cssRules sheet with
                | Normal rules => List.filter (matched el) rules
                | Throw _ => []
                end)
  sheets.

(** The tags [scan] asks [querySelectorAll] for. *)
Definition scannedTags : list string :=
["div"; "span"; "h1"; "h2"; "h3"; "h4"; "li"; "a"; "button"].

(** ** EventEmitter *)

Module Emitter.
Section Emitter.

(** [S] is whatever the handlers act on (the page), [Data] the type of the
    arguments passed on to them, [Exn] what they may throw. *)
Context {S Data Exn : Type}.

(** A handler runs against the page and either returns or throws; what it
    did before throwing stays done. *)
Definition Handler : Type := list Data -> S -> S * completion Exn unit.

(** The page together with the [console.error] log. *)
Record World : Type := {
  page : S;
  console : list Exn
}.

(** [this.handlers]: the own properties of the object literal [{}]. *)
Record EventEmitter : Type := {
  handlers : gmap string (list Handler)
}.

Definition create : EventEmitter := {| handlers := ∅ |}.

(** Property names which [{}] inherits from [Object.prototype]: reading
    them on [this.handlers] gives a truthy value that is not an array. *)
Definition objectPrototypeKeys : list string :=
  [ "constructor"; "hasOwnProperty"; "isPrototypeOf"; "propertyIsEnumerable";
    "toLocaleString"; "toString"; "valueOf"; "__proto__";
    "__defineGetter__"; "__defineSetter__"; "__lookupGetter__"; "__lookupSetter__" ].

(** What [this.handlers[event]] evaluates to. *)
Inductive slot : Type :=
| Undefined
| Listeners (h : list Handler)
| Inherited.

Definition getSlot (em : EventEmitter) (event : string) : slot :=
  match handlers em !! event with
  | Some h => Listeners h
  | None => if existsb (String.eqb event) objectPrototypeKeys then Inherited else Undefined
  end.

(** What a call of [send] or [on] can throw itself. *)
Inductive TypeError : Type := NotAFunction (member : string).

(** One callback of [h.forEach]: the promise executor runs at once, the
    [try] catches what the handler throws and logs it. *)
Definition invoke (data : list Data) (w : World) (handler : Handler) : World :=
  let '(s, c) := handler data (page w) in
  match c with
  | Normal _ => {| page := s; console := console w |}
  | Throw e => {| page := s; console := console w ++ [e] |}
  end.

(** [send(event, ...data)]; the value returned is always [undefined]. *)
Definition send (em : EventEmitter) (event : string) (data : list Data)
    (w : World) : World * completion TypeError unit :=
  if String.eqb event "" then (w, Normal tt)
  else match getSlot em event with
       | Undefined => (w, Normal tt)
       | Inherited => (w, Throw (NotAFunction "forEach"))
       | Listeners h => (fold_left (invoke data) h w, Normal tt)
       end.

(** [on(event, handler)] *)
Definition on (em : EventEmitter) (event : string) (handler : Handler)
  : completion TypeError EventEmitter :=
  match getSlot em event with
  | Undefined => Normal {| handlers := <[event := [handler]]> (handlers em) |}
  | Listeners h => Normal {| handlers := <[event := h ++ [handler]]> (handlers em) |}
  | Inherited => Throw (NotAFunction "push")
  end.

(** The emitters the script can get: a new one, with listeners added by
    calls of [on] that returned. *)
Inductive built : EventEmitter -> Prop :=
| built_create : built create
| built_on em event handler em' :
    built em -> on em event handler = Normal em' -> built em'.

(** The page after every handler of [h] has run in turn, and what they
    threw, whatever [invoke] does with it. *)
Fixpoint runAll (data : list Data) (h : list Handler) (s : S) : S * list Exn :=
  match h with
  | [] => (s, [])
  | handler :: rest =>
      let '(s1, c) := handler data s in
      let '(s2, thrown) := runAll data rest s1 in
      (s2, match c with Normal _ => thrown | Throw e => e :: thrown end)
  end.

End Emitter.
Arguments World S Exn : clear implicits.
Arguments EventEmitter S Data Exn : clear implicits.
Arguments Handler S Data Exn : clear implicits.
End Emitter.

(** ** The mutation watcher *)

Module Watcher.

Local Open Scope Z_scope.

(** The window's timer table and the script's [updateTimeout] variable.
    Every timer of the script runs the same callback, so a timer is its
    id and the time it is due. *)
Record State : Type := {
  now : Z;                        (* milliseconds *)
  nextTimerId : Z;                (* [setTimeout] hands out ids from here *)
  timers : list (Z * Z);          (* active timers: (id, due) *)
  updateTimeout : option Z;       (* [undefined] or a timer id *)
  scans : nat                     (* calls of [update] made by timers *)
}.

(** The state after the script's top level has run: timer ids are
    positive integers. *)
Definition init : State :=
  {| now := 0; nextTimerId := 1; timers := []; updateTimeout := None; scans := 0 |}.

(** Truthiness of [updateTimeout]. *)
Definition truthy (v : option Z) : bool :=
  match v with
  | None => false
  | Some n => negb (Z.eqb n 0)
  end.

Definition setTimeout (delay : Z) (st : State) : Z * State :=
  let id := nextTimerId st in
  (id, {| now := now st;
          nextTimerId := id + 1;
          timers := timers st ++ [(id, now st + delay)];
          updateTimeout := updateTimeout st;
          scans := scans st |}).

Definition clearTimeout (v : option Z) (st : State) : State :=
  match v with
  | None => st
  | Some id =>
      {| now := now st;
         nextTimerId := nextTimerId st;
         timers := List.filter (fun t => negb (Z.eqb (fst t) id)) (timers st);
         updateTimeout := updateTimeout st;
         scans := scans st |}
  end.

(** [update()], as far as the watcher is concerned: one more scan. *)
Definition update (st : State) : State :=
  {| now := now st;
     nextTimerId := nextTimerId st;
     timers := timers st;
     updateTimeout := updateTimeout st;
     scans := Datatypes.S (scans st) |}.

(** The callback handed to [setTimeout]. *)
Definition timerCallback (st : State) : State :=
  update (clearTimeout (updateTimeout st) st).

Definition throttledUpdate (st : State) : State :=
  if truthy (updateTimeout st) then st
  else
    let '(id, st1) := setTimeout 500 st in
    {| now := now st1;
       nextTimerId := nextTimerId st1;
       timers := timers st1;
       updateTimeout := Some id;
       scans := scans st1 |}.

(** What happens to the page: the observer reports a mutation, or time
    passes. *)
Inductive event : Type :=
| Mutation
| Wait (ms : Z).

(** Run the timers that are due: each is taken off the table and its
    callback called. *)
Definition fireDue (st : State) : State :=
  let due := List.filter (fun t => Z.leb (snd t) (now st)) (timers st) in
  fold_left
    (fun s t =>
       if existsb (fun t' => Z.eqb (fst t') (fst t)) (timers s)
       then timerCallback
              {| now := now s;
                 nextTimerId := nextTimerId s;
                 timers := List.filter (fun t' => negb (Z.eqb (fst t') (fst t))) (timers s);
                 updateTimeout := updateTimeout s;
                 scans := scans s |}
       else s)
    due st.

Definition step (st : State) (ev : event) : State :=
  match ev with
  | Mutation => throttledUpdate st
  | Wait ms =>
      fireDue {| now := now st + Z.max 0 ms;
                 nextTimerId := nextTimerId st;
                 timers := timers st;
                 updateTimeout := updateTimeout st;
                 scans := scans st |}
  end.

Definition run (trace : list event) (st : State) : State :=
  fold_left step trace st.

(** [n] mutation signals in a row, with no time passing in between. *)
Definition burst (n : nat) : list event := repeat Mutation n.

(** What can be reached from [init]: nothing armed yet; or one timer
    pending and its id stored; or the timer gone, one scan made, and the id
    still stored. *)
Inductive reachable : State -> Prop :=
| Idle now0 next :
    1 <= next ->
    reachable {| now := now0; nextTimerId := next; timers := [];
                 updateTimeout := None; scans := 0 |}
| Pending now0 next id due :
    id <> 0 ->
    reachable {| now := now0; nextTimerId := next; timers := [(id, due)];
                 updateTimeout := Some id; scans := 0 |}
| Spent now0 next id :
    id <> 0 ->
    reachable {| now := now0; nextTimerId := next; timers := [];
                 updateTimeout := Some id; scans := 1 |}.

(** The time that passes during a trace. *)
Fixpoint elapsed (trace : list event) : Z :=
match trace with
| [] => 0
| Mutation :: rest => elapsed rest
| Wait ms :: rest => Z.max 0 ms + elapsed rest
end.

End Watcher.

(** ** Concrete pages used to evaluate the definitions *)

Module Demo.

(** Two kinds of value object whose string forms can coincide. *)
Inductive value : Type :=
| Keyword (s : string)
| Unparsed (s : string).

#[export] Instance value_toString : ToString value :=
  fun v => match v with Keyword s => s | Unparsed s => s end.

Definition exn : Type := string.

Definition mkRule (sel : string) (props : list (string * value)) : CSSStyleRule value :=
  {| selectorText := sel; styleMap := props |}.

(** [.Card { color: red }] followed by [.Bpk_Button { color: blue }]. *)
Definition card : CSSStyleRule value := mkRule ".Card" [("color", Keyword "red")].
Definition bpkButton : CSSStyleRule value := mkRule ".Bpk_Button" [("color", Keyword "blue")].
Definition bpkButtonRed : CSSStyleRule value := mkRule ".Bpk_Button" [("color", Unparsed "red")].
Definition cardRules : list (CSSStyleRule value) := [card; bpkButton].

(** An element selector declaring [color], neither framework nor
    single-class. *)
Definition divRule : CSSStyleRule value := mkRule "div" [("color", Keyword "green")].
Definition divFont : CSSStyleRule value := mkRule "div" [("font-size", Unparsed "12px")].

(** [.Custom { margin: 0 }] at position 2, [.Legacy { margin: 4px }] at 3,
    [.Bpk_X { margin: 8px }] at 5; the other positions declare nothing of
    interest. *)
Definition custom : CSSStyleRule value := mkRule ".Custom" [("margin", Unparsed "0")].
Definition legacy : CSSStyleRule value := mkRule ".Legacy" [("margin", Unparsed "4px")].
Definition bpkX : CSSStyleRule value := mkRule ".Bpk_X" [("margin", Unparsed "8px")].
Definition filler : CSSStyleRule value := mkRule "*" [("box-sizing", Keyword "border-box")].
Definition marginRules : list (CSSStyleRule value) :=
  [filler; filler; custom; legacy; filler; bpkX].

(** The same three rules with the framework rule before the legacy one. *)
Definition marginRulesLegacyLast : list (CSSStyleRule value) :=
  [filler; filler; custom; bpkX; filler; legacy].

(** A framework rule before the author's rule only. *)
Definition frameworkFirst : list (CSSStyleRule value) := [bpkButton; card].

(** A selector engine that knows a few selectors and throws on [":bad("]. *)
Definition demoMatches (tag : string) (classes : list string) (sel : string)
  : completion exn bool :=
  if String.eqb sel ":bad(" then Throw "SyntaxError"
  else if String.eqb sel "*" then Normal true
  else if String.eqb sel tag then Normal true
  else match sel with
       | String "."%char cls => Normal (existsb (String.eqb cls) classes)
       | _ => Normal false
       end.

Definition mkElement (tag : string) (classes : list string) : Element exn :=
  {| localName := tag; classList := classes; matches := demoMatches tag classes |}.

Definition cardDiv : Element exn := mkElement "div" ["Card"; "Bpk_Button"].
Definition cardParagraph : Element exn := mkElement "p" ["Card"; "Bpk_Button"].
Definition plainDiv : Element exn := mkElement "div" ["Plain"].

Definition badRule : CSSStyleRule value := mkRule ":bad(" [("color", Keyword "black")].

(** One sheet in which a rule with an unusable selector sits between the
    author's rule and the framework rule, and a second sheet. *)
Definition brokenSheet : CSSStyleSheet value exn :=
  {| cssRules := Normal [card; badRule; bpkButton] |}.
Definition otherSheet : CSSStyleSheet value exn :=
  {| cssRules := Normal [divFont] |}.
Definition crossOriginSheet : CSSStyleSheet value exn :=
  {| cssRules := Throw "SecurityError" |}.
Definition goodSheet : CSSStyleSheet value exn :=
  {| cssRules := Normal [card; bpkButton] |}.

Definition page : Document value exn :=
  {| allElements := [cardDiv; cardParagraph; plainDiv];
     styleSheets := [crossOriginSheet; goodSheet; otherSheet] |}.

(** What [scan] returns for [cardDiv] on [page]. *)
Definition cardResult : ScanResult exn :=
{| element := cardDiv;
   overriddenProperties :=
     [{| key := "color"; before := "red"; after := "blue"; rule := ".Card" |}] |}.

(** Handlers on a counter: one adds its argument, one throws after adding
    one, one doubles. *)
Definition addArg : Emitter.Handler nat nat exn :=
  fun data s => (s + hd 0 data, Normal tt).
Definition failing : Emitter.Handler nat nat exn :=
  fun data s => (s + 1, Throw "boom").
Definition double : Emitter.Handler nat nat exn :=
  fun data s => (2 * s, Normal tt).

Definition emitter : Emitter.EventEmitter nat nat exn :=
  {| Emitter.handlers := {[ "change" := [addArg; failing; double] ]} |}.

Definition world0 : Emitter.World nat exn :=
  {| Emitter.page := 0; Emitter.console := [] |}.

End Demo.

(** ** createToggleElement *)

Module Toggle.
Section Toggle.

(** [S] is the page the listeners act on, [Exn] what they may throw; the
    argument sent with the change event is the new state. *)
Context {S Exn : Type}.

(** [Object.assign(style, props)] on a style object seen as a bag of
    properties. *)
Definition assign (style : gmap string string) (props : list (string * string))
  : gmap string string :=
fold_left (fun m p => <[fst p := snd p]> m) props style.

(** What the closure of [createToggleElement] holds: the [state] variable,
    the styles of [outer] and [inner], the label text when there is a
    label, and the emitter that is also handed to the caller. *)
Record Toggle : Type := {
  state : bool;
  outerStyle : gmap string string;
  innerStyle : gmap string string;
  label : option string;
  events : Emitter.EventEmitter S bool Exn
}.

Definition updateDisplay (t : Toggle) : Toggle :=
{| state := state t;
   outerStyle := outerStyle t;
   innerStyle :=
     if state t
     then assign (innerStyle t)
            [("left", "calc(100% - (20px + 2px))"); ("background", "#5f2")]
     else assign (delete "right" (innerStyle t))
            [("left", "2px"); ("background", "#111")];
   label := label t;
   events := events t |}.

(** Truthiness of [labelText]. *)
Definition hasLabel (labelText : option string) : bool :=
match labelText with
| Some s => negb (String.eqb s "")
| None => false
end.

Definition createToggleElement (initialState : bool) (labelText : option string) : Toggle :=
let outer0 :=
  assign ∅ [("width", "48px"); ("height", "24px"); ("borderRadius", "3px");
            ("background", "#aaa"); ("position", "relative"); ("cursor", "pointer");
            ("boxShadow", "inset 0 0 1px 10px #aaa, inset 0 0 0 20px rgba(0,0,0,0.5)")] in
let inner0 :=
  assign ∅ [("width", "20px"); ("height", "20px"); ("borderRadius", "2px");
            ("left", "2px"); ("top", "2px"); ("position", "absolute");
            ("background", "#111");
            ("transition", "left 0.2s ease-out, background-color 0.2s ease-out")] in
updateDisplay
  {| state := initialState;
     outerStyle := if hasLabel labelText
                   then assign outer0 [("marginLeft", "0.5em")] else outer0;
     innerStyle := inner0;
     label := if hasLabel labelText then labelText else None;
     events := Emitter.create |}.

(** [setState(newState)]: the variable is set, the listeners are told, the
    display is brought up to date; a [send] that throws leaves before the
    display is touched. *)
Definition setState (newState : bool) (t : Toggle) (w : Emitter.World S Exn)
  : Toggle * Emitter.World S Exn * completion Emitter.TypeError unit :=
let t1 := {| state := newState; outerStyle := outerStyle t;
             innerStyle := innerStyle t; label := label t; events := events t |} in
match Emitter.send (events t1) "change" [newState] w with
| (w1, Normal _) => (updateDisplay t1, w1, Normal tt)
| (w1, Throw e) => (t1, w1, Throw e)
end.

(** The click listener on [outer]. *)
Definition click (t : Toggle) (w : Emitter.World S Exn)
  : Toggle * Emitter.World S Exn * completion Emitter.TypeError unit :=
setState (negb (state t)) t w.

(** [n] clicks in a row; a click that throws ends only that click. *)
Fixpoint clicks (n : nat) (t : Toggle) (w : Emitter.World S Exn)
  : Toggle * Emitter.World S Exn :=
match n with
| O => (t, w)
| Datatypes.S m => let '(t1, w1, _) := click t w in clicks m t1 w1
end.

(** [events.on("change", handler)] by the holder of the toggle. The name
    [change] is not inherited, so [on] returns; were it to throw, the
    emitter would be as before. *)
Definition listen (t : Toggle) (handler : Emitter.Handler S bool Exn) : Toggle :=
match Emitter.on (events t) "change" handler with
| Normal em => {| state := state t; outerStyle := outerStyle t;
                  innerStyle := innerStyle t; label := label t; events := em |}
| Throw _ => t
end.

(** The knob is drawn for state [b]. *)
Definition shows (t : Toggle) (b : bool) : Prop :=
innerStyle t !! "left" = Some (if b then "calc(100% - (20px + 2px))" else "2px") /\
innerStyle t !! "background" = Some (if b then "#5f2" else "#111").

End Toggle.
Arguments Toggle S Exn : clear implicits.
End Toggle.

(** ** The panel: createWrapper and update *)

(** The inline style object of an element, as the browser provides it: the
    object of an element without inline style, the assignment
    [style[prop] = value] and the read [style[prop]]. *)
Class StyleObject (St : Type) : Type := {
  emptyStyle : St;
  assignStyle : string -> string -> St -> St;
  readStyle : string -> St -> string
}.

Module Presenter.
Section Presenter.

Context {V : Type} `{ToString V} {Exn : Type}.
(** JavaScript compares elements by identity; [identify] gives the identity
    of an element of the document. *)
Context {K : Type} `{Countable K} (identify : Element Exn -> K).

(** The style object of an element is the browser's: how it stores a
    value, which names it takes for one property and what it gives back on a
    read are its own business. The script assigns to it and, once per
    element, reads from it. *)
Context {St : Type} `{StyleObject St}.

(** The two objects of an element the script writes to. *)
Record ElementObject : Type := {
  style : St;
  dataset : gmap string string
}.

(** An element nothing has been written to yet. *)
Definition noObject : ElementObject := {| style := emptyStyle; dataset := ∅ |}.

(** What the toggles' listeners work on: the [results] variable and the
    style and dataset objects of the page's elements. *)
Record Page : Type := {
  results : list (ScanResult Exn);
  objects : gmap K ElementObject
}.

Definition objectOf (pg : Page) (k : K) : ElementObject :=
default noObject (objects pg !! k).

(** Reading [element.style[prop]]. *)
Definition styleOf (pg : Page) (k : K) (prop : string) : string :=
readStyle prop (style (objectOf pg k)).

(** Reading [element.dataset[name]]: [None] for [undefined]. *)
Definition datasetOf (pg : Page) (k : K) (name : string) : option string :=
dataset (objectOf pg k) !! name.

(** The string the style object is handed for a value that may be
    [undefined]. *)
Definition styleString (value : option string) : string :=
match value with
| Some v => v
| None => "undefined"
end.

(** [Object.assign(element.style, {[prop]: value})]: one assignment
    [element.style[prop] = value]. *)
Definition setStyle (k : K) (prop : string) (value : option string) (pg : Page) : Page :=
let o := objectOf pg k in
{| results := results pg;
   objects := <[k := {| style := assignStyle prop (styleString value) (style o);
                        dataset := dataset o |}]> (objects pg) |}.

Definition setDataset (k : K) (name value : string) (pg : Page) : Page :=
let o := objectOf pg k in
{| results := results pg;
   objects := <[k := {| style := style o; dataset := <[name := value]> (dataset o) |}]>
                (objects pg) |}.

Definition highlightShadow : string :=
"0 0 2px 2px red, inset 0 0 0 500px rgba(255,0,0,0.5)".

(** The first argument of a listener; a missing one is [undefined]. *)
Definition firstArg (data : list bool) : bool := hd false data.

(** The listener of the Highlight Elements toggle. *)
Definition highlightHandler : Emitter.Handler Page bool Exn :=
fun data pg =>
  (fold_left
     (fun p res =>
        let k := identify (element res) in
        setStyle k "boxShadow"
          (if firstArg data then Some highlightShadow
           else datasetOf p k "originalBoxShadow") p)
     (results pg) pg,
   Normal tt).

(** The listener of the Fix Properties toggle. *)
Definition fixHandler : Emitter.Handler Page bool Exn :=
fun data pg =>
  (fold_left
     (fun p res =>
        fold_left
          (fun q o =>
             setStyle (identify (element res)) (key o)
               (Some (if firstArg data then before o else "")) q)
          (overriddenProperties res) p)
     (results pg) pg,
   Normal tt).

(** The wrapper with what hangs in it: the text and the two toggles. The
    wrapper's own style and its place in the document are left out. *)
Record Panel : Type := {
  text : string;
  showHighlightToggle : Toggle.Toggle Page Exn;
  fixElementPropertiesToggle : Toggle.Toggle Page Exn
}.

(** The variables of the script. *)
Record Script : Type := {
  page : Page;
  wrapper : option Panel;
  initialisedElements : gset K;
  console : list Exn
}.

Definition start : Script :=
{| page := {| results := []; objects := ∅ |};
   wrapper := None;
   initialisedElements := ∅;
   console := [] |}.

Definition countText (n : nat) : string := pretty n +:+ " overridden styles detected!".

Definition createWrapper (sc : Script) : Script :=
match wrapper sc with
| Some p =>
    {| page := page sc;
       wrapper := Some {| text := countText (length (results (page sc)));
                          showHighlightToggle := showHighlightToggle p;
                          fixElementPropertiesToggle := fixElementPropertiesToggle p |};
       initialisedElements := initialisedElements sc;
       console := console sc |}
| None =>
    {| page := page sc;
       wrapper :=
         Some {| text := countText (length (results (page sc)));
                 showHighlightToggle :=
                   Toggle.listen
                     (Toggle.createToggleElement false (Some "Highlight Elements: "))
                     highlightHandler;
                 fixElementPropertiesToggle :=
                   Toggle.listen
                     (Toggle.createToggleElement false (Some "Fix Properties: "))
                     fixHandler |};
       initialisedElements := initialisedElements sc;
       console := console sc |}
end.

(** The body of the [forEach] in [update], without its console output. *)
Definition initialise (sc : Script) (res : ScanResult Exn) : Script :=
let k := identify (element res) in
if decide (k ∈ initialisedElements sc) then sc
else
  {| page := setDataset k "originalBoxShadow" (styleOf (page sc) k "boxShadow") (page sc);
     wrapper := wrapper sc;
     initialisedElements := {[k]} ∪ initialisedElements sc;
     console := console sc |}.

(** [update()] on the document as it is when called. *)
Definition update (d : Document V Exn) (sc : Script) : Script :=
let sc1 := {| page := {| results := scan d; objects := objects (page sc) |};
              wrapper := wrapper sc;
              initialisedElements := initialisedElements sc;
              console := console sc |} in
if Nat.ltb 0 (length (results (page sc1)))
then fold_left initialise (results (page sc1)) (createWrapper sc1)
else sc1.

(** A click on one of the two toggles of the panel. *)
Inductive which : Type := Highlight | Fix.

Definition toggleOf (w : which) (p : Panel) : Toggle.Toggle Page Exn :=
match w with
| Highlight => showHighlightToggle p
| Fix => fixElementPropertiesToggle p
end.

Definition withToggle (w : which) (t : Toggle.Toggle Page Exn) (p : Panel) : Panel :=
match w with
| Highlight => {| text := text p; showHighlightToggle := t;
                  fixElementPropertiesToggle := fixElementPropertiesToggle p |}
| Fix => {| text := text p; showHighlightToggle := showHighlightToggle p;
            fixElementPropertiesToggle := t |}
end.

Definition clickToggle (w : which) (sc : Script) : Script :=
match wrapper sc with
| None => sc
| Some p =>
    let '(t, world, _) :=
      Toggle.click (toggleOf w p)
        {| Emitter.page := page sc; Emitter.console := console sc |} in
    {| page := Emitter.page world;
       wrapper := Some (withToggle w t p);
       initialisedElements := initialisedElements sc;
       console := Emitter.console world |}
end.

(** What happens after the script has started: [update] runs on the
    document of the moment, the user clicks a toggle, or the page itself
    sets an inline style of one of its elements. *)
Inductive action : Type :=
| Update (d : Document V Exn)
| Click (w : which)
| PageSets (k : K) (prop value : string).

Definition act (sc : Script) (a : action) : Script :=
match a with
| Update d => update d sc
| Click w => clickToggle w sc
| PageSets k prop value =>
    {| page := setStyle k prop (Some value) (page sc);
       wrapper := wrapper sc;
       initialisedElements := initialisedElements sc;
       console := console sc |}
end.

Definition runActions (l : list action) (sc : Script) : Script := fold_left act l sc.

(** The panel's toggles carry the script's two listeners and no other. *)
Definition scriptListeners (p : Panel) : Prop :=
Emitter.getSlot (Toggle.events (showHighlightToggle p)) "change"
  = Emitter.Listeners [highlightHandler] /\
Emitter.getSlot (Toggle.events (fixElementPropertiesToggle p)) "change"
  = Emitter.Listeners [fixHandler].

(** What holds of the script's variables between two actions: every
    reported element has been initialised, every initialised element has
    its snapshot, and without a panel nothing is reported. *)
Definition consistent (sc : Script) : Prop :=
(forall res, In res (results (page sc)) ->
   identify (element res) ∈ initialisedElements sc) /\
(forall k, k ∈ initialisedElements sc ->
   is_Some (datasetOf (page sc) k "originalBoxShadow")) /\
match wrapper sc with
| None => results (page sc) = []
| Some p => scriptListeners p
end.

(** The style assignments a listener makes, in order, and their effect. *)
Definition applyWrites (ws : list (K * string * string)) (pg : Page) : Page :=
fold_left (fun p w => setStyle (fst (fst w)) (snd (fst w)) (Some (snd w)) p) ws pg.

(** The assignments of the Fix Properties listener for state [b]. *)
Definition fixWrites (b : bool) (rs : list (ScanResult Exn)) : list (K * string * string) :=
flat_map
  (fun res =>
     List.map (fun o => (identify (element res), key o, if b then before o else ""))
              (overriddenProperties res))
  rs.

(** The assignments of the Highlight Elements listener for state [b]. *)
Definition highlightWrites (b : bool) (pg : Page) (rs : list (ScanResult Exn))
  : list (K * string * string) :=
List.map
  (fun res =>
     let k := identify (element res) in
     (k, "boxShadow",
      if b then highlightShadow
      else styleString (datasetOf pg k "originalBoxShadow")))
  rs.

(** The assignments made when toggle [w] goes to state [b]. *)
Definition writesOf (w : which) (b : bool) (pg : Page) : list (K * string * string) :=
match w with
| Highlight => highlightWrites b pg (results pg)
| Fix => fixWrites b (results pg)
end.

End Presenter.
Arguments ElementObject St : clear implicits.
Arguments Page Exn K {_ _} St.
Arguments Panel Exn K {_ _} St.
Arguments Script Exn K {_ _} St.
Arguments action V Exn K : clear implicits.
End Presenter.

(** ** A concrete page for the panel *)

Module DemoPanel.

Import Demo.

(** Elements told apart by tag and classes, which is enough on [page]. *)
Definition ident (e : Element exn) : string :=
String.concat "." (localName e :: classList e).

(** A page whose only readable rule is not a framework rule. *)
Definition plainPage : Document value exn :=
{| allElements := [cardDiv; plainDiv];
   styleSheets := [crossOriginSheet; otherSheet] |}.

(** A style object for the examples: the declarations under their dashed
    names, the latest first. A camel-case name stands for the dashed one,
    the empty string takes a declaration off, and the word [undefined] is
    not a value. *)
Fixpoint dashed (prop : string) : string :=
match prop with
| EmptyString => EmptyString
| String c rest =>
    let n := nat_of_ascii c in
    if Nat.leb 65 n && Nat.leb n 90
    then String "-"%char (String (ascii_of_nat (n + 32)) (dashed rest))
    else String c (dashed rest)
end.

Definition demoStyle : Type := list (string * string).

#[export] Instance demoStyleObject : StyleObject demoStyle := {|
  emptyStyle := [];
  assignStyle prop value st :=
    let rest := List.filter (fun d => negb (String.eqb (fst d) (dashed prop))) st in
    if String.eqb value "undefined" then st
    else if String.eqb value "" then rest
    else (dashed prop, value) :: rest;
  readStyle prop st :=
    match List.find (fun d => String.eqb (fst d) (dashed prop)) st with
    | Some d => snd d
    | None => ""
    end
|}.

(** The script after its first [update] on [page]. *)
Definition afterUpdate : Presenter.Script exn string demoStyle :=
Presenter.runActions ident [Presenter.Update page] Presenter.start.

End DemoPanel.

(** * Properties *)

(** ** The resolver loop *)

Section ResolverFacts.

Context {V : Type} `{ToString V}.

Implicit Types (r R F A : CSSStyleRule V) (P k : string) (v w : V).
Implicit Types (rules pre post mid : list (CSSStyleRule V)).

Lemma findProp_key k (props : list (string * V)) p :
  findProp k props = Some p -> fst p = k.
Proof.
  unfold findProp. intros Hf. apply find_some in Hf as [_ Hk].
  now apply String.eqb_eq.
Qed.

Lemma declares_true r P :
  declares r P = true <-> exists w, findProp P (styleMap r) = Some (P, w).
Proof.
  unfold declares. split.
  - destruct (findProp P (styleMap r)) as [[k w]|] eqn:E; [|discriminate].
    intros _. exists w. apply findProp_key in E as Hk. simpl in Hk. now subst.
  - intros [w ->]. reflexivity.
Qed.

Lemma declares_false r P :
  declares r P = false <-> findProp P (styleMap r) = None.
Proof.
  unfold declares. destruct (findProp P (styleMap r)); split; congruence.
Qed.

Lemma declares_In r P :
  declares r P = true <-> exists w, In (P, w) (styleMap r).
Proof.
  rewrite declares_true. split.
  - intros [w Hw]. exists w. unfold findProp in Hw. now apply find_some in Hw as [Hin _].
  - intros [w Hin]. unfold findProp.
    destruct (List.find _ (styleMap r)) as [[k w']|] eqn:E.
    + exists w'. apply find_some in E as [_ Hk]. simpl in Hk.
      apply String.eqb_eq in Hk. now subst.
    + eapply find_none in E; [|exact Hin]. simpl in E.
      rewrite String.eqb_refl in E. discriminate.
Qed.

(** Rules that do not declare the property are passed over. *)
Lemma checkAfterRules_skip r k v pre rest :
  Forall (fun a => declares a k = false) pre ->
  checkAfterRules r k v (pre ++ rest) = checkAfterRules r k v rest.
Proof.
  induction 1 as [|a pre Ha _ IH]; simpl; [reflexivity|].
  apply declares_false in Ha. now rewrite Ha.
Qed.

(** A rule that does not declare the property can be taken out anywhere. *)
Lemma checkAfterRules_remove r k v pre a rest :
  declares a k = false ->
  checkAfterRules r k v (pre ++ a :: rest) = checkAfterRules r k v (pre ++ rest).
Proof.
  intros Ha. induction pre as [|b pre IH]; simpl.
  - apply declares_false in Ha. now rewrite Ha.
  - now rewrite IH.
Qed.

(** The loop stops at the first rule that declares the property. *)
Lemma checkAfterRules_first r k v F w rest :
  findProp k (styleMap F) = Some (k, w) ->
  checkAfterRules r k v (F :: rest) =
    if negb (isFramework F) then None
    else if String.eqb (toString w) (toString v) then None
    else Some {| key := k; before := toString v; after := toString w;
                 rule := selectorText r |}.
Proof. intros Hf. simpl. now rewrite Hf. Qed.

(** When the loop returns a record, this is how it got there. *)
Lemma checkAfterRules_Some r k v l o :
  checkAfterRules r k v l = Some o ->
  exists pre F w post,
    l = pre ++ F :: post /\
    Forall (fun a => declares a k = false) pre /\
    findProp k (styleMap F) = Some (k, w) /\
    isFramework F = true /\
    toString w <> toString v /\
    o = {| key := k; before := toString v; after := toString w;
           rule := selectorText r |}.
Proof.
  induction l as [|a l IH]; simpl; [discriminate|].
  destruct (findProp k (styleMap a)) as [[k' w]|] eqn:Hf.
  - apply findProp_key in Hf as Hk. simpl in Hk. subst k'.
    destruct (Str.startsWith (selectorText a) ".Bpk") eqn:Hb; simpl; [|discriminate].
    unfold getValue. simpl.
    destruct (String.eqb (toString w) (toString v)) eqn:He; [discriminate|].
    intros [= <-]. exists [], a, w, l. repeat split; auto.
    now apply String.eqb_neq.
  - intros Hl. destruct (IH Hl) as (pre & F & w & post & -> & Hpre & HF & HB & Hne & ->).
    exists (a :: pre), F, w, post. repeat split; auto.
    constructor; [now apply declares_false | exact Hpre].
Qed.

Lemma filterDefined_In {A : Type} (l : list (option A)) (a : A) :
  In a (filterDefined l) <-> In (Some a) l.
Proof.
  induction l as [|[b|] l IH]; simpl; [tauto| |].
  - rewrite IH. split; intros [E|E]; auto; left; congruence.
  - rewrite IH. split; [auto|]. intros [E|E]; [discriminate|auto].
Qed.

Lemma filterDefined_app {A : Type} (l1 l2 : list (option A)) :
  filterDefined (l1 ++ l2) = filterDefined l1 ++ filterDefined l2.
Proof.
  induction l1 as [|[a|] l1 IH]; simpl; [reflexivity| |]; now rewrite IH.
Qed.

Lemma skipn_after pre r post :
  skipn (length pre + 1) (pre ++ r :: post) = post.
Proof.
  induction pre as [|a pre IH]; simpl; [reflexivity|exact IH].
Qed.

(** One step of the [reduce] adds the rule's contribution. *)
Lemma reducer_contribution pre r post acc :
  reducer (pre ++ r :: post) acc r (length pre) = acc ++ contribution r post.
Proof.
  unfold reducer, contribution, isAuthorCandidate, overridden.
  destruct (isBackpackClassRule r); simpl; [now rewrite app_nil_r|].
  destruct (isNonBackpackClassRule r); simpl; [|now rewrite app_nil_r].
  unfold checkProperty. rewrite skipn_after.
  destruct (filterDefined _) as [|o os]; simpl; [now rewrite app_nil_r|reflexivity].
Qed.

Lemma reduceFrom_resolveFrom pre suf acc :
  reduceFrom (reducer (pre ++ suf)) suf (length pre) acc = acc ++ resolveFrom suf.
Proof.
  revert pre acc. induction suf as [|r suf IH]; intros pre acc; simpl.
  - now rewrite app_nil_r.
  - rewrite reducer_contribution.
    replace (pre ++ r :: suf) with ((pre ++ [r]) ++ suf) by now rewrite <- app_assoc.
    replace (Datatypes.S (length pre)) with (length (pre ++ [r]))
      by (rewrite length_app; simpl; lia).
    rewrite IH. now rewrite <- app_assoc.
Qed.

(** The index-based [reduce] of the script and the recursion on the list
    compute the same override list. *)
Lemma computeOverriddenProperties_resolveFrom rules :
  computeOverriddenProperties rules = resolveFrom rules.
Proof.
  unfold computeOverriddenProperties.
  exact (reduceFrom_resolveFrom [] rules []).
Qed.

(** Every override in the list comes from some rule's contribution. *)
Lemma resolveFrom_In rules o :
  In o (resolveFrom rules) <->
  exists pre R post, rules = pre ++ R :: post /\ In o (contribution R post).
Proof.
  induction rules as [|a rules IH]; simpl.
  - split; [tauto|]. intros (pre & R & post & E & _). now destruct pre.
  - rewrite in_app_iff, IH. split.
    + intros [Ho|(pre & R & post & -> & Ho)].
      * exists [], a, rules. auto.
      * exists (a :: pre), R, post. auto.
    + intros (pre & R & post & E & Ho). destruct pre as [|b pre]; simpl in E.
      * injection E as <- <-. now left.
      * injection E as <- ->. right. eauto.
Qed.

Lemma contribution_In R post o :
  In o (contribution R post) <->
  isAuthorCandidate R = true /\
  exists P v, In (P, v) (styleMap R) /\ checkAfterRules R P v (rev post) = Some o.
Proof.
  unfold contribution. destruct (isAuthorCandidate R).
  - rewrite filterDefined_In, in_map_iff. split.
    + intros ([P v] & E & Hin). simpl in E. split; [reflexivity|]. eauto.
    + intros (_ & P & v & Hin & E). exists (P, v). auto.
  - simpl. split; [tauto|]. intros [E _]. discriminate.
Qed.

End ResolverFacts.

(** ** Which after-rule decides *)

Section CascadeOrder.

Context {V : Type} `{ToString V}.

Implicit Types (r R F A : CSSStyleRule V) (P k : string) (v w : V).
Implicit Types (rules pre post mid : list (CSSStyleRule V)).

Lemma checkProperty_key rules i R p o :
  checkProperty rules i R p = Some o -> key o = fst p.
Proof.
  unfold checkProperty. intros Ho.
  apply checkAfterRules_Some in Ho as (? & ? & ? & ? & _ & _ & _ & _ & _ & ->).
  reflexivity.
Qed.

(** The after-rule that declares [P] last in cascade order decides alone. *)
Lemma checkProperty_last_declarer rules i R P v mid A w post :
  skipn (i + 1) rules = mid ++ A :: post ->
  Forall (fun a => declares a P = false) post ->
  findProp P (styleMap A) = Some (P, w) ->
  checkProperty rules i R (P, v) =
    if negb (isFramework A) then None
    else if String.eqb (toString w) (toString v) then None
    else Some {| key := P; before := toString v; after := toString w;
                 rule := selectorText R |}.
Proof.
  intros Hs Hpost HA. unfold checkProperty. simpl. rewrite Hs.
  rewrite rev_app_distr. simpl. rewrite <- !app_assoc. simpl.
  rewrite checkAfterRules_skip by now apply Forall_rev.
  now apply checkAfterRules_first.
Qed.

Lemma overridden_In rules i R o :
  In o (overridden rules i R) <->
  exists p, In p (styleMap R) /\ checkProperty rules i R p = Some o.
Proof.
  unfold overridden. rewrite filterDefined_In, in_map_iff.
  split; intros (p & Hp1 & Hp2); exists p; auto.
Qed.

(** With one entry per property, the overrides for [P] in a rule's list are
    what the loop returns for that entry. *)
Lemma overridesFor_entry (f : string * V -> option PropertyOverride)
    (props : list (string * V)) P v :
  (forall p o, f p = Some o -> key o = fst p) ->
  List.NoDup (List.map fst props) ->
  In (P, v) props ->
  overridesFor P (filterDefined (List.map f props)) =
    match f (P, v) with Some o => [o] | None => [] end.
Proof.
  intros Hkey. unfold overridesFor.
  assert (Hout : forall l, ~ In P (List.map fst l) ->
            List.filter (fun o => String.eqb (key o) P) (filterDefined (List.map f l)) = []).
  { induction l as [|[k x] l IH]; simpl; [reflexivity|]. intros Hn.
    destruct (f (k, x)) as [o|] eqn:E; simpl; [|apply IH; tauto].
    apply Hkey in E. simpl in E.
    destruct (String.eqb_spec (key o) P) as [E'|_]; [|apply IH; tauto].
    exfalso. apply Hn. left. congruence. }
  induction props as [|[k x] l IH]; simpl; [tauto|].
  intros Hnd [E|Hin]; inversion Hnd as [|? ? Hk Hnd']; subst.
  - injection E as -> ->. simpl in Hk.
    destruct (f (P, v)) as [o|] eqn:E; simpl.
    + apply Hkey in E. simpl in E. rewrite E, String.eqb_refl.
      now rewrite (Hout l Hk).
    + exact (Hout l Hk).
  - assert (k <> P).
    { intros ->. apply Hk. change P with (fst (P, v)). now apply in_map. }
    destruct (f (k, x)) as [o|] eqn:E; simpl; [|now apply IH].
    apply Hkey in E. simpl in E. rewrite E.
    destruct (String.eqb_spec k P); [contradiction|now apply IH].
Qed.

(** The list computed for an author's rule goes into the resolver's output
    as it is, between what the rules before it and the rules after it add. *)
Lemma overridden_in_output pre R post :
  isAuthorCandidate R = true ->
  exists fromBefore,
    computeOverriddenProperties (pre ++ R :: post) =
    fromBefore ++ overridden (pre ++ R :: post) (length pre) R
    ++ computeOverriddenProperties post.
Proof.
  intros HR. rewrite !computeOverriddenProperties_resolveFrom.
  assert (E : overridden (pre ++ R :: post) (length pre) R = contribution R post).
  { unfold overridden, contribution, checkProperty. now rewrite HR, skipn_after. }
  rewrite E. clear E.
  induction pre as [|a pre [l IH]]; simpl.
  - now exists [].
  - exists (contribution a (pre ++ R :: post) ++ l).
    now rewrite IH, <- app_assoc.
Qed.

(** C1 (as amended): the after-rules are walked from the last one, so it is
    the non-Framework after-rule declaring [P] at the LATEST cascade
    position that shields [P]: when no rule after it declares [P], the loop
    returns nothing for the declaration [(P, v)] of [R] and the list
    computed for [R] holds no override for [P], whatever Framework rules
    declare [P] between [R] and that rule. *)
Theorem C1_last_declarer_non_framework rules i R P v mid A post :
  skipn (i + 1) rules = mid ++ A :: post ->
  declares A P = true ->
  isFramework A = false ->
  Forall (fun a => declares a P = false) post ->
  checkProperty rules i R (P, v) = None /\
  forall o, In o (overridden rules i R) -> key o <> P.
Proof.
  intros Hs HA HnF Hpost.
  apply declares_true in HA as [w HA].
  assert (Hnone : forall v', checkProperty rules i R (P, v') = None).
  { intros v'. rewrite (checkProperty_last_declarer _ _ _ _ _ _ _ _ _ Hs Hpost HA).
    now rewrite HnF. }
  split; [apply Hnone|].
  intros o Ho Hk. apply overridden_In in Ho as ([k x] & _ & Ho).
  apply checkProperty_key in Ho as Hk'. simpl in Hk'.
  rewrite Hk in Hk'. subst k. rewrite Hnone in Ho. discriminate.
Qed.

(** C2 (as amended): the [rule] field of every override the resolver emits
    is the selector of the author's own rule [R], the one whose declaration
    was overridden; it never starts with the framework prefix. The
    overriding Framework rule [F] contributes only the [after] value. *)
Theorem C2_rule_field_is_author_selector rules o :
  In o (computeOverriddenProperties rules) ->
  exists pre R post v F w,
    rules = pre ++ R :: post /\
    isAuthorCandidate R = true /\
    In (key o, v) (styleMap R) /\
    rule o = selectorText R /\
    Str.startsWith (rule o) ".Bpk" = false /\
    before o = toString v /\
    In F post /\
    isFramework F = true /\
    findProp (key o) (styleMap F) = Some (key o, w) /\
    after o = toString w /\
    toString w <> toString v.
Proof.
  rewrite computeOverriddenProperties_resolveFrom, resolveFrom_In.
  intros (pre & R & post & -> & Ho).
  apply contribution_In in Ho as (HR & P & v & Hin & Ho).
  apply checkAfterRules_Some in Ho
    as (a & F & w & b & Hrev & _ & HF & HfF & Hne & ->).
  exists pre, R, post, v, F, w. simpl.
  repeat split; auto.
  - unfold isAuthorCandidate, isBackpackClassRule in HR.
    apply andb_prop in HR as [HR _]. now apply negb_true_iff in HR.
  - apply in_rev. rewrite Hrev. apply in_or_app. right. now left.
Qed.

End CascadeOrder.

(** ** Rules that are not the author's *)

Section OtherRules.

Context {V : Type} `{ToString V}.

Implicit Types (r R F A : CSSStyleRule V) (P k : string) (v w : V).
Implicit Types (rules pre post mid : list (CSSStyleRule V)).

Lemma checkAfterRules_none_declares r k v l :
  Forall (fun a => declares a k = false) l ->
  checkAfterRules r k v l = None.
Proof.
  intros Hl. rewrite <- (app_nil_r l). now rewrite checkAfterRules_skip.
Qed.

Lemma author_not_framework R : isAuthorCandidate R = true -> isFramework R = false.
Proof.
  unfold isAuthorCandidate, isFramework. intros HR.
  apply andb_prop in HR as [HR _]. now apply negb_true_iff in HR.
Qed.

Lemma irrelevant_not_author r : isIrrelevant r = true -> isAuthorCandidate r = false.
Proof.
  unfold isIrrelevant. intros Hr.
  apply andb_prop in Hr as [_ Hr]. now apply negb_true_iff in Hr.
Qed.

(** A rule that declares none of [R]'s properties can be taken out of the
    rules after [R]. *)
Lemma contribution_remove R pre r post :
  (forall P, declares R P = true -> declares r P = false) ->
  contribution R (pre ++ r :: post) = contribution R (pre ++ post).
Proof.
  intros Hd. unfold contribution. destruct (isAuthorCandidate R); [|reflexivity].
  f_equal. apply map_ext_in. intros [k v] Hin. simpl.
  rewrite !rev_app_distr. simpl. rewrite <- app_assoc. simpl.
  apply checkAfterRules_remove, Hd, declares_In. eauto.
Qed.

(** When [R] declares [P] and is not a Framework rule, and no rule after
    [R] declares [P], a rule before [R] gets nothing for [P]. *)
Lemma checkAfterRules_shielded r R P v mid post :
  declares R P = true ->
  isFramework R = false ->
  Forall (fun a => declares a P = false) post ->
  checkAfterRules r P v (rev (mid ++ R :: post)) = None.
Proof.
  intros HR HnF Hpost. apply declares_true in HR as [w HR].
  rewrite rev_app_distr. simpl. rewrite <- app_assoc. simpl.
  rewrite checkAfterRules_skip by now apply Forall_rev.
  rewrite (checkAfterRules_first _ _ _ _ _ _ HR). now rewrite HnF.
Qed.

Lemma resolveFrom_no_declarer rules P o :
  Forall (fun a => declares a P = false) rules ->
  In o (resolveFrom rules) -> key o <> P.
Proof.
  intros Hall Ho Hk. apply resolveFrom_In in Ho as (pre & R & post & -> & Ho).
  apply contribution_In in Ho as (_ & k & v & Hin & Ho).
  apply checkAfterRules_Some in Ho as (? & ? & ? & ? & _ & _ & _ & _ & _ & ->).
  simpl in Hk. subst k.
  apply Forall_app in Hall as [_ Hall]. inversion Hall as [|? ? HR _]; subst.
  assert (declares R P = true) by (apply declares_In; eauto). congruence.
Qed.

(** C5: what the resolver computes for the author's rule [R] does not
    depend on the rules before [R]; when no rule after [R] declares [P],
    nothing is reported for a declaration of [P] in [R], and when [R]
    declares [P] the whole override list holds nothing for [P], whatever
    Framework rules before [R] declare it. *)
Theorem C5_rules_before_are_never_reported pre pre' R post P :
  isAuthorCandidate R = true ->
  Forall (fun a => declares a P = false) post ->
  overridden (pre ++ R :: post) (length pre) R =
    overridden (pre' ++ R :: post) (length pre') R /\
  (forall v, checkProperty (pre ++ R :: post) (length pre) R (P, v) = None) /\
  (declares R P = true ->
   forall o, In o (computeOverriddenProperties (pre ++ R :: post)) -> key o <> P).
Proof.
  intros HR Hpost. split; [|split].
  - unfold overridden, checkProperty. now rewrite !skipn_after.
  - intros v. unfold checkProperty. rewrite skipn_after. simpl.
    apply checkAfterRules_none_declares. now apply Forall_rev.
  - intros HP. rewrite computeOverriddenProperties_resolveFrom.
    apply author_not_framework in HR as HnF.
    induction pre as [|a pre IH]; simpl; intros o Ho; apply in_app_or in Ho as [Ho|Ho].
    + apply contribution_In in Ho as (_ & k & v & _ & Ho). intros Hk.
      apply checkAfterRules_Some in Ho as Hs.
      destruct Hs as (? & ? & ? & ? & _ & _ & _ & _ & _ & ->). simpl in Hk. subst k.
      rewrite checkAfterRules_none_declares in Ho by now apply Forall_rev.
      discriminate.
    + now apply (resolveFrom_no_declarer post).
    + apply contribution_In in Ho as (_ & k & v & _ & Ho). intros Hk.
      apply checkAfterRules_Some in Ho as Hs.
      destruct Hs as (? & ? & ? & ? & _ & _ & _ & _ & _ & ->). simpl in Hk. subst k.
      rewrite checkAfterRules_shielded in Ho by assumption. discriminate.
    + now apply IH.
Qed.

End OtherRules.

(** ** findCssRules *)

Section RuleLookup.

Context {V Exn : Type}.

Implicit Types (el : Element Exn) (r : CSSStyleRule V) (sheet : CSSStyleSheet V Exn).

Lemma pushMatching_acc el (rules ret : list (CSSStyleRule V)) :
  fst (pushMatching el rules ret) = ret ++ fst (pushMatching el rules []).
Proof.
  revert ret. induction rules as [|r rules IH]; intros ret; simpl.
  - now rewrite app_nil_r.
  - destruct (matches el (selectorText r)) as [[|]|e]; simpl.
    + rewrite (IH (ret ++ [r])), (IH [r]). now rewrite <- app_assoc.
    + apply IH.
    + now rewrite app_nil_r.
Qed.

Lemma visitSheet_acc el ret sheet :
  visitSheet el ret sheet = ret ++ visitSheet el [] sheet.
Proof.
  unfold visitSheet. destruct (cssRules sheet); [apply pushMatching_acc|].
  now rewrite app_nil_r.
Qed.

Lemma fold_visitSheet_acc el (sheets : list (CSSStyleSheet V Exn)) ret :
  fold_left (visitSheet el) sheets ret = ret ++ fold_left (visitSheet el) sheets [].
Proof.
  revert ret. induction sheets as [|s sheets IH]; intros ret; simpl.
  - now rewrite app_nil_r.
  - rewrite (IH (visitSheet el ret s)), (IH (visitSheet el [] s)).
    rewrite (visitSheet_acc el ret s). now rewrite <- app_assoc.
Qed.

(** Each sheet adds its own rules; what happens in one sheet does not reach
    another. *)
Lemma findCssRulesIn_app el (s1 s2 : list (CSSStyleSheet V Exn)) :
  findCssRulesIn el (s1 ++ s2) = findCssRulesIn el s1 ++ findCssRulesIn el s2.
Proof.
  unfold findCssRulesIn. rewrite fold_left_app. apply fold_visitSheet_acc.
Qed.

(** The inner loop keeps the matching rules before the first selector that
    throws and visits nothing after it. *)
Lemma pushMatching_throw el (pre post : list (CSSStyleRule V)) bad e :
  Forall (fun r => exists b, matches el (selectorText r) = Normal b) pre ->
  matches el (selectorText bad) = Throw e ->
  pushMatching el (pre ++ bad :: post) [] = (List.filter (matched el) pre, Throw e).
Proof.
  intros Hpre Hbad.
  assert (G : forall ret, pushMatching el (pre ++ bad :: post) ret
                          = (ret ++ List.filter (matched el) pre, Throw e)).
  { induction Hpre as [|r pre [b Hr] _ IH]; intros ret; simpl.
    - now rewrite Hbad, app_nil_r.
    - unfold matched at 1. rewrite Hr. destruct b.
      + rewrite IH. now rewrite <- app_assoc.
      + apply IH. }
  apply G.
Qed.

(** C6 (as amended): the [try] is around the whole sheet. When a selector of
    a sheet cannot be evaluated, the matching rules of that sheet before it
    stay in the result, the rule itself and all rules after it in the same
    sheet are left out, and the other sheets contribute as if nothing had
    happened. *)
Theorem C6_recovery_is_per_sheet el (sheetsBefore sheetsAfter : list (CSSStyleSheet V Exn))
    sheet (pre post : list (CSSStyleRule V)) bad e :
  cssRules sheet = Normal (pre ++ bad :: post) ->
  Forall (fun r => exists b, matches el (selectorText r) = Normal b) pre ->
  matches el (selectorText bad) = Throw e ->
  findCssRulesIn el (sheetsBefore ++ sheet :: sheetsAfter) =
    findCssRulesIn el sheetsBefore ++ List.filter (matched el) pre
    ++ findCssRulesIn el sheetsAfter.
Proof.
  intros Hs Hpre Hbad.
  change (sheet :: sheetsAfter) with ([sheet] ++ sheetsAfter).
  rewrite !findCssRulesIn_app. do 2 f_equal.
  unfold findCssRulesIn, visitSheet. simpl. rewrite Hs.
  now rewrite (pushMatching_throw _ _ _ _ _ Hpre Hbad).
Qed.

End RuleLookup.

(** ** scan *)

Section Scan.

Context {V : Type} `{ToString V} {Exn : Type}.

Implicit Types (d : Document V Exn) (e : Element Exn) (res : ScanResult Exn).

Lemma scan_In d res :
  In res (scan d) <->
  exists e, In e (querySelectorAll d "div,span,h1,h2,h3,h4,li,a,button") /\
            scanElement d e = Some res /\
            surfaced (Some res) = true.
Proof.
  unfold scan. rewrite filterDefined_In, filter_In, in_map_iff. split.
  - intros ((e & He & Hin) & Hs). eauto.
  - intros (e & Hin & He & Hs). eauto.
Qed.

Lemma scanElement_Some d e res :
  scanElement d e = Some res ->
  element res = e /\
  overriddenProperties res = computeOverriddenProperties (findCssRules d e).
Proof.
  unfold scanElement. destruct (negb (hasOwnNonBackpackClass e)); [discriminate|].
  intros [= <-]. split; reflexivity.
Qed.

Lemma querySelectorAll_tags d e :
  In e (querySelectorAll d "div,span,h1,h2,h3,h4,li,a,button") <->
  In e (allElements d) /\ In (localName e) scannedTags.
Proof.
  unfold querySelectorAll. rewrite filter_In.
  change (Str.splitOn "," "div,span,h1,h2,h3,h4,li,a,button") with scannedTags.
  rewrite existsb_exists. split; intros [Hin Ht]; split; auto.
  - destruct Ht as (t & Ht & E). apply String.eqb_eq in E. now subst.
  - exists (localName e). split; [exact Ht|apply String.eqb_refl].
Qed.

(** C9: every result returned by [scan] carries the override list computed
    for its element, and that list is not empty; an element whose computed
    list is empty is in no result. *)
Theorem C9_results_have_overrides d :
  (forall res, In res (scan d) ->
     overriddenProperties res = computeOverriddenProperties (findCssRules d (element res)) /\
     overriddenProperties res <> []) /\
  (forall e, computeOverriddenProperties (findCssRules d e) = [] ->
     forall res, In res (scan d) -> element res <> e).
Proof.
  assert (G : forall res, In res (scan d) ->
     overriddenProperties res = computeOverriddenProperties (findCssRules d (element res)) /\
     overriddenProperties res <> []).
  { intros res Hres. apply scan_In in Hres as (e & _ & He & Hs).
    apply scanElement_Some in He as [<- Hov]. split; [exact Hov|].
    simpl in Hs. intros E. rewrite E in Hs. discriminate. }
  split; [exact G|].
  intros e He res Hres <-. destruct (G res Hres) as [E Hne]. congruence.
Qed.

(** C10: the element of every result has one of the nine tags, an element
    with another tag is in no result, and whether such an element is in the
    document or not makes no difference to what [scan] returns. *)
Theorem C10_only_listed_tags d :
  (forall res, In res (scan d) -> In (localName (element res)) scannedTags) /\
  (forall e, ~ In (localName e) scannedTags ->
     forall res, In res (scan d) -> element res <> e) /\
  (forall es1 e es2, ~ In (localName e) scannedTags ->
     allElements d = es1 ++ e :: es2 ->
     scan d = scan {| allElements := es1 ++ es2; styleSheets := styleSheets d |}).
Proof.
  assert (G : forall res, In res (scan d) -> In (localName (element res)) scannedTags).
  { intros res Hres. apply scan_In in Hres as (e & He & Hse & _).
    apply scanElement_Some in Hse as [<- _].
    now apply querySelectorAll_tags in He as [_ Ht]. }
  split; [exact G|split].
  - intros e Hn res Hres <-. auto.
  - intros es1 e es2 Hn Hd.
    assert (E : existsb (String.eqb (localName e)) scannedTags = false).
    { destruct (existsb _ scannedTags) eqn:E; [|reflexivity].
      exfalso. apply Hn. apply existsb_exists in E as (t & Ht & E).
      apply String.eqb_eq in E. now subst. }
    unfold scan, querySelectorAll. cbn [allElements]. rewrite Hd.
    change (Str.splitOn "," "div,span,h1,h2,h3,h4,li,a,button") with scannedTags.
    rewrite !List.filter_app. cbn [List.filter]. rewrite E.
    reflexivity.
Qed.

End Scan.

(** ** EventEmitter.send *)

Section Dispatch.

Context {S Data Exn : Type}.

Implicit Types (h : list (Emitter.Handler S Data Exn)) (w : Emitter.World S Exn).

Lemma fold_invoke_runAll (data : list Data) h w :
  fold_left (Emitter.invoke data) h w =
  {| Emitter.page := fst (Emitter.runAll data h (Emitter.page w));
     Emitter.console := Emitter.console w ++ snd (Emitter.runAll data h (Emitter.page w)) |}.
Proof.
  revert w. induction h as [|handler h IH]; intros w; simpl.
  - rewrite app_nil_r. now destruct w.
  - rewrite IH. unfold Emitter.invoke.
    destruct (handler data (Emitter.page w)) as [s1 c].
    destruct (Emitter.runAll data h s1) as [s2 thrown] eqn:E.
    destruct c; simpl; rewrite E; simpl; [reflexivity|].
    now rewrite <- app_assoc.
Qed.

(** Handlers after one that throws run all the same. *)
Lemma runAll_app (data : list Data) h1 h2 (s : S) :
  Emitter.runAll data (h1 ++ h2) s =
  (fst (Emitter.runAll data h2 (fst (Emitter.runAll data h1 s))),
   snd (Emitter.runAll data h1 s) ++ snd (Emitter.runAll data h2 (fst (Emitter.runAll data h1 s)))).
Proof.
  revert s. induction h1 as [|handler h1 IH]; intros s; simpl.
  - now destruct (Emitter.runAll data h2 s).
  - destruct (handler data s) as [s1 c]. rewrite IH.
    destruct (Emitter.runAll data h1 s1) as [s2 t2]. simpl.
    destruct c; reflexivity.
Qed.

(** C8: when [send] dispatches an event to its registered listeners [h],
    every one of them is run once, in order, on the page as the one before
    left it, whether or not an earlier one threw; what they threw is on the
    console; [send] itself does not throw and returns [undefined]. *)
Theorem C8_send_runs_every_listener (em : Emitter.EventEmitter S Data Exn)
    (event : string) (data : list Data) h w :
  event <> "" ->
  Emitter.getSlot em event = Emitter.Listeners h ->
  Emitter.send em event data w =
    ({| Emitter.page := fst (Emitter.runAll data h (Emitter.page w));
        Emitter.console :=
          Emitter.console w ++ snd (Emitter.runAll data h (Emitter.page w)) |},
     Normal tt).
Proof.
  intros Hev Hslot. unfold Emitter.send.
  destruct (String.eqb_spec event ""); [contradiction|].
  rewrite Hslot. now rewrite fold_invoke_runAll.
Qed.

End Dispatch.

(** ** The mutation watcher *)

Section Debounce.

Import Watcher.
Local Open Scope Z_scope.

(** Once [updateTimeout] holds a timer id, [throttledUpdate] does nothing. *)
Lemma throttledUpdate_armed st :
  truthy (updateTimeout st) = true -> throttledUpdate st = st.
Proof. unfold throttledUpdate. now intros ->. Qed.

Lemma run_burst_armed n st :
  truthy (updateTimeout st) = true -> run (burst n) st = st.
Proof.
  intros Ht. induction n as [|n IH]; simpl; [reflexivity|].
  now rewrite throttledUpdate_armed.
Qed.

Lemma run_app t1 t2 st : run (t1 ++ t2) st = run t2 (run t1 st).
Proof. apply fold_left_app. Qed.

Lemma truthy_nonzero id : id <> 0 -> truthy (Some id) = true.
Proof. intros Hid. simpl. now destruct (Z.eqb_spec id 0). Qed.

Lemma step_reachable st ev : reachable st -> reachable (step st ev).
Proof.
  intros Hst. destruct ev as [|ms].
  - destruct Hst as [now0 next Hn|now0 next id due Hid|now0 next id Hid]; simpl.
    + unfold throttledUpdate. simpl. apply Pending. lia.
    + rewrite throttledUpdate_armed by now apply truthy_nonzero. now apply Pending.
    + rewrite throttledUpdate_armed by now apply truthy_nonzero. now apply Spent.
  - destruct Hst as [now0 next Hn|now0 next id due Hid|now0 next id Hid];
      unfold step, fireDue; simpl.
    + now apply Idle.
    + destruct (due <=? now0 + Z.max 0 ms); simpl.
      * rewrite Z.eqb_refl. simpl. unfold timerCallback, update, clearTimeout. simpl.
        now apply Spent.
      * now apply Pending.
    + now apply Spent.
Qed.

Lemma run_reachable trace st : reachable st -> reachable (run trace st).
Proof.
  revert st. induction trace as [|ev trace IH]; intros st Hst; simpl; [exact Hst|].
  apply IH. now apply step_reachable.
Qed.

(** Whatever happens to the page, the timers make one scan at most. *)
Lemma scans_at_most_one trace : (scans (run trace init) <= 1)%nat.
Proof.
  assert (Hr : reachable (run trace init)) by (apply run_reachable, Idle; lia).
  destruct Hr; simpl; lia.
Qed.

(** C7: the signals of a first burst arm one timer and lead to one scan when
    the delay has passed; [updateTimeout] still holds the timer's id then,
    so the signals of a later burst arm nothing, and after another delay the
    number of scans is still one, where the claim has two. *)
Theorem C7_later_burst_triggers_no_scan (n m : nat) :
  scans (run (burst (Datatypes.S n) ++ [Wait 500]) init) = 1%nat /\
  scans (run (burst (Datatypes.S n) ++ [Wait 500]
              ++ burst (Datatypes.S m) ++ [Wait 500]) init) = 1%nat.
Proof.
  assert (H1 : run (burst (Datatypes.S n) ++ [Wait 500]) init =
               {| now := 500; nextTimerId := 2; timers := [];
                  updateTimeout := Some 1; scans := 1 |}).
  { rewrite run_app. change (burst (Datatypes.S n)) with (Mutation :: burst n).
    change (run (Mutation :: burst n) init) with (run (burst n) (throttledUpdate init)).
    rewrite run_burst_armed by reflexivity. reflexivity. }
  split; [now rewrite H1|].
  rewrite app_assoc, run_app, H1, run_app.
  rewrite run_burst_armed by reflexivity. reflexivity.
Qed.

End Debounce.

(** ** The statements at concrete pages *)

Section Instances.

Import Demo.

(** C1 as stated fails on the example of the specification: [.Legacy], not a
    Framework rule, declares [margin] at position 3, before the only
    Framework rule declaring it (position 5), and yet the resolver reports
    the override of [.Custom]'s margin by the framework's [8px]. *)
Lemma C1_counterexample :
  marginRules !! 2%nat = Some custom /\
  isAuthorCandidate custom = true /\
  In ("margin", Unparsed "0") (styleMap custom) /\
  (exists j A, 2 < j /\ marginRules !! j = Some A /\
     isFramework A = false /\ declares A "margin" = true /\
     forall k F, 2 < k -> marginRules !! k = Some F ->
       isFramework F = true -> declares F "margin" = true -> j < k) /\
  checkProperty marginRules 2 custom ("margin", Unparsed "0") =
    Some {| key := "margin"; before := "0"; after := "8px"; rule := ".Custom" |}.
Proof.
  split; [reflexivity|]. split; [reflexivity|]. split; [now left|].
  split; [|reflexivity].
  exists 3%nat, legacy. split; [lia|]. split; [reflexivity|].
  split; [reflexivity|]. split; [reflexivity|].
  intros k F Hk Hl HF _.
  do 6 (destruct k as [|k]; [simpl in Hl; injection Hl as <-;
                             try discriminate HF; lia|]).
  discriminate Hl.
Qed.

Lemma C1_witness :
  checkProperty marginRulesLegacyLast 2 custom ("margin", Unparsed "0") = None /\
  forall o, In o (overridden marginRulesLegacyLast 2 custom) -> key o <> "margin".
Proof.
  apply (C1_last_declarer_non_framework marginRulesLegacyLast 2 custom "margin"
           (Unparsed "0") [bpkX; filler] legacy []).
  - reflexivity.
  - reflexivity.
  - reflexivity.
  - constructor.
Defined.

(** C2 as stated fails on the example of the specification: for [.Card]
    overridden by [.Bpk_Button] the record carries [.Card]. *)
Lemma C2_counterexample :
  exists o, computeOverriddenProperties cardRules = [o] /\
            key o = "color" /\ before o = "red" /\ after o = "blue" /\
            rule o = selectorText card /\
            rule o <> selectorText bpkButton.
Proof.
  eexists. split; [reflexivity|]. simpl. repeat split. discriminate.
Qed.

Lemma C2_witness :
  exists pre R post v F w,
    cardRules = pre ++ R :: post /\
    isAuthorCandidate R = true /\
    In ("color", v) (styleMap R) /\
    ".Card" = selectorText R /\
    Str.startsWith ".Card" ".Bpk" = false /\
    "red" = toString v /\
    In F post /\
    isFramework F = true /\
    findProp "color" (styleMap F) = Some ("color", w) /\
    "blue" = toString w /\
    toString w <> toString v.
Proof.
  apply (C2_rule_field_is_author_selector cardRules
           {| key := "color"; before := "red"; after := "blue"; rule := ".Card" |}).
  vm_compute. left. reflexivity.
Defined.

(** C4 as stated fails: [div { color: green }] is Irrelevant, and putting it
    after the framework rule makes the reported override disappear. *)
Lemma C4_counterexample :
  isIrrelevant divRule = true /\
  computeOverriddenProperties cardRules =
    [{| key := "color"; before := "red"; after := "blue"; rule := ".Card" |}] /\
  computeOverriddenProperties (cardRules ++ [divRule]) = [] /\
  computeOverriddenProperties (cardRules ++ [divRule]) <>
    computeOverriddenProperties cardRules.
Proof.
  repeat split; try reflexivity. discriminate.
Qed.

Lemma C5_witness :
  isFramework bpkButton = true /\ declares bpkButton "color" = true /\
  overridden ([bpkButton] ++ card :: []) 1 card = overridden ([] ++ card :: []) 0 card /\
  (forall v, checkProperty ([bpkButton] ++ card :: []) 1 card ("color", v) = None) /\
  (declares card "color" = true ->
   forall o, In o (computeOverriddenProperties ([bpkButton] ++ card :: [])) ->
             key o <> "color").
Proof.
  split; [reflexivity|]. split; [reflexivity|].
  apply (C5_rules_before_are_never_reported [bpkButton] [] card [] "color").
  - reflexivity.
  - constructor.
Defined.

(** C6 as stated fails: [.Bpk_Button] comes after the unusable selector in
    the same sheet and matches the element, but it is not in the result, so
    the override of [.Card]'s colour goes unseen. *)
Lemma C6_counterexample :
  cssRules brokenSheet = Normal [card; badRule; bpkButton] /\
  matches cardDiv (selectorText badRule) = Throw "SyntaxError" /\
  matches cardDiv (selectorText bpkButton) = Normal true /\
  findCssRulesIn cardDiv [brokenSheet] = [card] /\
  ~ In bpkButton (findCssRulesIn cardDiv [brokenSheet]) /\
  findCssRules_perRuleRecovery cardDiv [brokenSheet] = [card; bpkButton] /\
  findCssRulesIn cardDiv [brokenSheet] <> findCssRules_perRuleRecovery cardDiv [brokenSheet].
Proof.
  repeat split; try reflexivity.
  - vm_compute. intros [E|[]]. discriminate E.
  - vm_compute. discriminate.
Qed.

Lemma C6_witness :
  findCssRulesIn cardDiv ([crossOriginSheet] ++ brokenSheet :: [otherSheet]) =
    findCssRulesIn cardDiv [crossOriginSheet] ++ List.filter (matched cardDiv) [card]
    ++ findCssRulesIn cardDiv [otherSheet].
Proof.
  apply (C6_recovery_is_per_sheet cardDiv [crossOriginSheet] [otherSheet] brokenSheet
           [card] [bpkButton] badRule "SyntaxError").
  - reflexivity.
  - constructor; [exists true; reflexivity|constructor].
  - reflexivity.
Defined.

Lemma C8_witness :
  Emitter.send emitter "change" [5] world0 =
    ({| Emitter.page := 12; Emitter.console := ["boom"] |}, Normal tt).
Proof.
  apply (C8_send_runs_every_listener emitter "change" [5] [addArg; failing; double] world0).
  - discriminate.
  - reflexivity.
Defined.

Lemma C9_witness :
  overriddenProperties cardResult =
    computeOverriddenProperties (findCssRules page (element cardResult)) /\
  overriddenProperties cardResult <> [].
Proof.
  apply (proj1 (C9_results_have_overrides page) cardResult).
  vm_compute. left. reflexivity.
Defined.

Lemma C10_witness :
  In (localName (element cardResult)) scannedTags /\
  forall res, In res (scan page) -> element res <> cardParagraph.
Proof.
  split.
  - apply (proj1 (C10_only_listed_tags page) cardResult).
    vm_compute. left. reflexivity.
  - apply (proj1 (proj2 (C10_only_listed_tags page)) cardParagraph).
    vm_compute. intuition discriminate.
Defined.

End Instances.

(** * Further properties of the script *)

(** ** The shape of the override list *)

Section OverrideList.

Context {V : Type} `{ToString V}.

Implicit Types (r R F A : CSSStyleRule V) (P k : string) (v w : V).
Implicit Types (rules pre post mid suf : list (CSSStyleRule V)).

Lemma overridden_contribution pre R post :
  isAuthorCandidate R = true ->
  overridden (pre ++ R :: post) (length pre) R = contribution R post.
Proof.
  intros HR. unfold overridden, contribution, checkProperty.
  now rewrite HR, skipn_after.
Qed.

Lemma contribution_not_author r post :
  isAuthorCandidate r = false -> contribution r post = [].
Proof. intros Hr. unfold contribution. now rewrite Hr. Qed.

Lemma lookup_after_prefix pre r suf : (pre ++ r :: suf) !! length pre = Some r.
Proof. induction pre as [|a pre IH]; simpl; [reflexivity|exact IH]. Qed.

(** What the rule at position [i] adds to the override list. *)
Lemma resolveFrom_by_index pre suf :
  resolveFrom suf =
  flat_map (fun i => match (pre ++ suf) !! i with
                     | Some r => if isAuthorCandidate r
                                 then overridden (pre ++ suf) i r else []
                     | None => []
                     end)
           (seq (length pre) (length suf)).
Proof.
  revert pre. induction suf as [|r suf IH]; intros pre; simpl; [reflexivity|].
  rewrite lookup_after_prefix. f_equal.
  - destruct (isAuthorCandidate r) eqn:Hr.
    + now rewrite overridden_contribution.
    + now apply contribution_not_author.
  - specialize (IH (pre ++ [r])). rewrite <- app_assoc in IH. simpl in IH.
    rewrite IH. f_equal. rewrite length_app. simpl. f_equal. lia.
Qed.

(** X1: the override list is the lists computed for the AuthorCandidate
    rules, one after the other in rule order; other rules add nothing. *)
Theorem X1_output_in_rule_order rules :
  computeOverriddenProperties rules =
  flat_map (fun i => match rules !! i with
                     | Some r => if isAuthorCandidate r then overridden rules i r else []
                     | None => []
                     end)
           (seq 0 (length rules)).
Proof.
  rewrite computeOverriddenProperties_resolveFrom.
  exact (resolveFrom_by_index [] rules).
Qed.

Lemma nil_of_no_member {A : Type} (l : list A) : (forall a, ~ In a l) -> l = [].
Proof.
  destruct l as [|a l]; [reflexivity|]. intros Hn. elim (Hn a). now left.
Qed.

Lemma resolveFrom_no_framework rules :
  Forall (fun r => isFramework r = false) rules ->
  resolveFrom rules = [].
Proof.
  intros Hnf. apply nil_of_no_member. intros o Ho.
  apply resolveFrom_In in Ho as (pre & R & post & -> & Ho).
  apply contribution_In in Ho as (_ & P & v & _ & Ho).
  apply checkAfterRules_Some in Ho as (a & F & w & b & Hrev & _ & _ & HF & _).
  assert (HinF : In F post).
  { apply in_rev. rewrite Hrev. apply in_or_app. right. now left. }
  rewrite List.Forall_forall in Hnf.
  assert (isFramework F = false).
  { apply Hnf. apply in_or_app. right. now right. }
  congruence.
Qed.

(** X2: without a Framework rule among the matched rules nothing is
    reported, whatever the author's rules declare. *)
Theorem X2_no_framework_rule_no_override rules :
  Forall (fun r => isFramework r = false) rules ->
  computeOverriddenProperties rules = [].
Proof.
  intros Hnf. rewrite computeOverriddenProperties_resolveFrom.
  now apply resolveFrom_no_framework.
Qed.

(** X3: an override is only reported when the two string forms differ. *)
Theorem X3_before_differs_from_after rules o :
  In o (computeOverriddenProperties rules) -> before o <> after o.
Proof.
  rewrite computeOverriddenProperties_resolveFrom. intros Ho.
  apply resolveFrom_In in Ho as (pre & R & post & -> & Ho).
  apply contribution_In in Ho as (_ & P & v & _ & Ho).
  apply checkAfterRules_Some in Ho as (? & ? & w & ? & _ & _ & _ & _ & Hne & ->).
  simpl. congruence.
Qed.

Lemma filterDefined_map_keys (f : string * V -> option PropertyOverride)
    (props : list (string * V)) :
  (forall p o, f p = Some o -> key o = fst p) ->
  List.NoDup (List.map fst props) ->
  List.NoDup (List.map key (filterDefined (List.map f props))).
Proof.
  intros Hkey. induction props as [|p props IH]; simpl; intros Hnd.
  - constructor.
  - inversion Hnd as [|? ? Hp Hnd']; subst.
    destruct (f p) as [o|] eqn:E; simpl; [|now apply IH].
    constructor; [|now apply IH].
    intros Hin. apply Hp. apply in_map_iff in Hin as (o' & Hk & Ho').
    apply filterDefined_In, in_map_iff in Ho' as (p' & Hf & Hp').
    apply Hkey in E. apply Hkey in Hf. apply in_map_iff. exists p'.
    split; [congruence|exact Hp'].
Qed.

(** X4: a rule whose style map has one entry per property gets at most one
    override per property. *)
Theorem X4_one_override_per_property rules i R :
  List.NoDup (List.map fst (styleMap R)) ->
  List.NoDup (List.map key (overridden rules i R)).
Proof.
  intros Hnd. unfold overridden. apply filterDefined_map_keys; [|exact Hnd].
  intros p o. apply checkProperty_key.
Qed.

(** X5: rules in front of the first AuthorCandidate rule have no effect on
    the result: they are not the author's, and nothing looks back at them. *)
Theorem X5_leading_rules_have_no_effect pre rules :
  Forall (fun r => isAuthorCandidate r = false) pre ->
  computeOverriddenProperties (pre ++ rules) = computeOverriddenProperties rules.
Proof.
  intros Hpre. rewrite !computeOverriddenProperties_resolveFrom.
  induction Hpre as [|a pre Ha _ IH]; simpl; [reflexivity|].
  now rewrite contribution_not_author.
Qed.

Lemma resolveFrom_suffix_In pre suf o :
  In o (resolveFrom suf) -> In o (resolveFrom (pre ++ suf)).
Proof.
  intros Ho. induction pre as [|a pre IH]; simpl; [exact Ho|].
  apply in_or_app. now right.
Qed.

(** X6: the converse of what the resolver reports. When the last rule after
    [R] that declares [P] is a Framework rule whose value has another string
    form than the one [R] declares, the override is in the list, with [R]'s
    selector. *)
Theorem X6_override_is_reported pre R mid F post P v w :
  isAuthorCandidate R = true ->
  In (P, v) (styleMap R) ->
  isFramework F = true ->
  findProp P (styleMap F) = Some (P, w) ->
  Forall (fun a => declares a P = false) post ->
  toString v <> toString w ->
  In {| key := P; before := toString v; after := toString w;
        rule := selectorText R |}
     (computeOverriddenProperties (pre ++ R :: mid ++ F :: post)).
Proof.
  intros HR Hin HF Hw Hpost Hne.
  rewrite computeOverriddenProperties_resolveFrom.
  apply resolveFrom_suffix_In. simpl. apply in_or_app. left.
  apply contribution_In. split; [exact HR|]. exists P, v. split; [exact Hin|].
  rewrite rev_app_distr. simpl. rewrite <- !app_assoc. simpl.
  rewrite checkAfterRules_skip by now apply Forall_rev.
  rewrite (checkAfterRules_first _ _ _ _ _ _ Hw), HF. simpl.
  destruct (String.eqb_spec (toString w) (toString v)); [congruence|reflexivity].
Qed.

End OverrideList.

(** ** What the resolver reports for one declaration, and what an Irrelevant
    rule changes *)

Section ResolverOutput.

Context {V : Type} `{ToString V}.

Implicit Types (r R F A : CSSStyleRule V) (P k : string) (v w : V).
Implicit Types (rules pre post mid suf : list (CSSStyleRule V)).

(** The override list splits at any position: what the rules before it
    add, then what the rules from it on add among themselves. *)
Lemma resolveFrom_split pre suf :
  resolveFrom (pre ++ suf) =
  flat_map (fun i => match (pre ++ suf) !! i with
                     | Some r => if isAuthorCandidate r
                                 then overridden (pre ++ suf) i r else []
                     | None => []
                     end)
           (seq 0 (length pre))
  ++ resolveFrom suf.
Proof.
  rewrite (resolveFrom_by_index [] (pre ++ suf)). simpl app.
  rewrite length_app, seq_app, flat_map_app. f_equal.
  symmetry. apply resolveFrom_by_index.
Qed.

(** The rule the loop stops at when it reports is a Framework rule, the last
    one after the author's rule to declare the property. *)
Lemma override_origin rules o :
  In o (computeOverriddenProperties rules) ->
  exists pre R mid F post v w,
    rules = pre ++ R :: mid ++ F :: post /\
    isAuthorCandidate R = true /\
    In (key o, v) (styleMap R) /\
    isFramework F = true /\
    findProp (key o) (styleMap F) = Some (key o, w) /\
    Forall (fun a => declares a (key o) = false) post /\
    toString v <> toString w /\
    o = {| key := key o; before := toString v; after := toString w;
           rule := selectorText R |}.
Proof.
  rewrite computeOverriddenProperties_resolveFrom, resolveFrom_In.
  intros (pre & R & rest & -> & Ho).
  apply contribution_In in Ho as (HR & P & v & Hin & Ho).
  pose proof (checkAfterRules_Some _ _ _ _ _ Ho)
    as (a & F & w & b & Hrev & Ha & HF & HfF & Hne & Eo).
  clear Ho. subst o. cbn [key]. exists pre, R, (rev b), F, (rev a), v, w.
  repeat split; auto.
  - f_equal. f_equal. rewrite <- (rev_involutive rest), Hrev.
    rewrite rev_app_distr. simpl. now rewrite <- app_assoc.
  - now apply Forall_rev.
Qed.

(** C3: let [R] be an AuthorCandidate rule with the declaration [(P, v)],
    and let the first rule after [R], walking back from the last, that
    declares [P] be the Framework rule [F] with value [w]. The resolver's
    output has, between what the rules before [R] add and what the rules
    after [R] add, the list computed for [R]; in that list there is an
    override for [P] exactly when the string forms of [v] and [w] differ,
    and then exactly one, made of [P], the string form of [v], the string
    form of [w]; and that record is in the resolver's output if and only if
    the string forms differ. *)
Theorem C3_nearest_framework_rule pre R mid F post P v w :
  isAuthorCandidate R = true ->
  In (P, v) (styleMap R) ->
  List.NoDup (List.map fst (styleMap R)) ->
  isFramework F = true ->
  findProp P (styleMap F) = Some (P, w) ->
  Forall (fun a => declares a P = false) post ->
  let rules := pre ++ R :: mid ++ F :: post in
  let reported := {| key := P; before := toString v; after := toString w;
                     rule := selectorText R |} in
  computeOverriddenProperties rules =
    flat_map (fun i => match rules !! i with
                       | Some r => if isAuthorCandidate r then overridden rules i r else []
                       | None => []
                       end)
             (seq 0 (length pre))
    ++ overridden rules (length pre) R
    ++ computeOverriddenProperties (mid ++ F :: post) /\
  overridesFor P (overridden rules (length pre) R) =
    (if String.eqb (toString v) (toString w) then [] else [reported]) /\
  (In reported (computeOverriddenProperties rules) <-> toString v <> toString w).
Proof.
  intros HR Hin Hnd HfF HF Hpost rules reported.
  assert (Hsplit : computeOverriddenProperties rules =
    flat_map (fun i => match rules !! i with
                       | Some r => if isAuthorCandidate r then overridden rules i r else []
                       | None => []
                       end)
             (seq 0 (length pre))
    ++ overridden rules (length pre) R
    ++ computeOverriddenProperties (mid ++ F :: post)).
  { rewrite !computeOverriddenProperties_resolveFrom. unfold rules.
    rewrite resolveFrom_split. f_equal. simpl. f_equal.
    symmetry. now apply overridden_contribution. }
  assert (Hc : checkProperty rules (length pre) R (P, v) =
               if String.eqb (toString w) (toString v) then None else Some reported).
  { unfold rules.
    rewrite (checkProperty_last_declarer _ _ R P v mid F w post); [|apply skipn_after|exact Hpost|exact HF].
    now rewrite HfF. }
  assert (Hfor : overridesFor P (overridden rules (length pre) R) =
                 if String.eqb (toString v) (toString w) then [] else [reported]).
  { unfold overridden. rewrite (overridesFor_entry _ _ P v); auto.
    - rewrite Hc. rewrite (String.eqb_sym (toString w)).
      now destruct (String.eqb (toString v) (toString w)).
    - intros p o. apply checkProperty_key. }
  split; [exact Hsplit|]. split; [exact Hfor|]. split.
  - intros Hrep Heq. apply override_origin in Hrep
      as (p0 & R0 & m0 & F0 & q0 & v' & w' & _ & _ & _ & _ & _ & _ & Hne & Ho).
    injection Ho as Hb Ha. congruence.
  - intros Hne. rewrite Hsplit. apply in_or_app. right. apply in_or_app. left.
    apply overridden_In. exists (P, v). split; [exact Hin|]. rewrite Hc.
    destruct (String.eqb_spec (toString w) (toString v)); [congruence|reflexivity].
Qed.

(** *** Taking an Irrelevant rule out *)

(** Once the loop has met a rule that declares the property, what comes
    behind it is not looked at. *)
Lemma checkAfterRules_stops r k v (l1 l2 l2' : list (CSSStyleRule V)) :
  (exists a, In a l1 /\ declares a k = true) ->
  checkAfterRules r k v (l1 ++ l2) = checkAfterRules r k v (l1 ++ l2').
Proof.
  induction l1 as [|b l1 IH]; intros (a & Hin & Ha); [destruct Hin|].
  simpl. destruct (findProp k (styleMap b)) eqn:E; [reflexivity|].
  apply IH. destruct Hin as [->|Hin]; [|eauto].
  apply declares_false in E. congruence.
Qed.

Lemma declares_all_or_some (l : list (CSSStyleRule V)) P :
  Forall (fun a => declares a P = false) l \/ exists a, In a l /\ declares a P = true.
Proof.
  induction l as [|a l [IH|(b & Hin & Hb)]].
  - left. constructor.
  - destruct (declares a P) eqn:E.
    + right. exists a. split; [now left|exact E].
    + left. now constructor.
  - right. exists b. split; [now right|exact Hb].
Qed.

(** With the Irrelevant rule [r] between [b] and [post], the loop returns
    what it returns without [r], unless [r] is the last rule to declare the
    property: then it returns nothing. *)
Lemma checkAfterRules_with_irrelevant R P v b r post :
  isIrrelevant r = true ->
  checkAfterRules R P v (rev (b ++ r :: post)) = checkAfterRules R P v (rev (b ++ post))
  \/ (declares r P = true /\ Forall (fun a => declares a P = false) post /\
      checkAfterRules R P v (rev (b ++ r :: post)) = None).
Proof.
  intros Hr. rewrite !rev_app_distr. simpl. rewrite <- app_assoc. simpl.
  destruct (declares r P) eqn:Hd.
  - destruct (declares_all_or_some post P) as [Hall|(a & Hin & Ha)].
    + right. split; [reflexivity|]. split; [exact Hall|].
      rewrite checkAfterRules_skip by now apply Forall_rev.
      apply declares_true in Hd as [w Hw].
      rewrite (checkAfterRules_first _ _ _ _ _ _ Hw).
      unfold isIrrelevant in Hr. apply andb_prop in Hr as [Hr _]. now rewrite Hr.
    + left. apply checkAfterRules_stops. exists a. split; [|exact Ha].
      now apply in_rev in Hin.
  - left. now apply checkAfterRules_remove.
Qed.

Lemma filterDefined_length_le {A B : Type} (f g : A -> option B) (l : list A) :
  (forall p, In p l -> f p = g p \/ f p = None) ->
  length (filterDefined (List.map f l)) <= length (filterDefined (List.map g l)).
Proof.
  induction l as [|p l IH]; intros Hfg; simpl; [lia|].
  assert (IH' := IH (fun q Hq => Hfg q (or_intror Hq))).
  destruct (Hfg p (or_introl eq_refl)) as [E|E]; rewrite E.
  - destruct (g p); simpl; lia.
  - destruct (g p); simpl; lia.
Qed.

Lemma filterDefined_length_lt {A B : Type} (f g : A -> option B) (l : list A) :
  (forall p, In p l -> f p = g p \/ f p = None) ->
  (exists p, In p l /\ f p = None /\ g p <> None) ->
  length (filterDefined (List.map f l)) < length (filterDefined (List.map g l)).
Proof.
  induction l as [|p l IH]; intros Hfg (q & Hq & Hf & Hg); [destruct Hq|].
  assert (Hle := filterDefined_length_le f g l (fun q Hq => Hfg q (or_intror Hq))).
  simpl. destruct Hq as [->|Hq].
  - rewrite Hf. destruct (g q); [simpl; lia|congruence].
  - assert (IH' := IH (fun q Hq => Hfg q (or_intror Hq)) (ex_intro _ q (conj Hq (conj Hf Hg)))).
    destruct (Hfg p (or_introl eq_refl)) as [E|E]; rewrite E; destruct (g p); simpl; lia.
Qed.

Lemma contribution_length_le R b r post :
  isIrrelevant r = true ->
  length (contribution R (b ++ r :: post)) <= length (contribution R (b ++ post)).
Proof.
  intros Hr. unfold contribution. destruct (isAuthorCandidate R); [|simpl; lia].
  apply filterDefined_length_le. intros [P v] _. simpl.
  destruct (checkAfterRules_with_irrelevant R P v b r post Hr) as [E|(_ & _ & E)]; auto.
Qed.

Lemma resolveFrom_length_le b r post :
  isIrrelevant r = true ->
  length (resolveFrom (b ++ r :: post)) <= length (resolveFrom (b ++ post)).
Proof.
  intros Hr. induction b as [|R b IH]; simpl.
  - rewrite contribution_not_author by now apply irrelevant_not_author. simpl. lia.
  - rewrite !length_app. pose proof (contribution_length_le R b r post Hr). lia.
Qed.

(** C4 (as amended): an Irrelevant rule is never treated as the author's
    rule: the callback of the reduce returns its accumulator as it got it.
    It is never reported as overriding: the rule whose value an override
    carries is a Framework rule, the last one after the author's rule to
    declare the property. Putting an Irrelevant rule [r] into the matched
    rules, or taking it out, leaves the resolver's output unchanged unless
    [r] is the last rule after some AuthorCandidate rule [R] to declare a
    property that [R] declares and an override is reported for that
    declaration without [r]; in that case the output changes. *)
Theorem C4_irrelevant_rule_only_shields pre r post :
  isIrrelevant r = true ->
  (forall rules acc i, reducer rules acc r i = acc) /\
  (forall o, In o (computeOverriddenProperties (pre ++ r :: post)) ->
     exists pre' R mid F post' v w,
       pre ++ r :: post = pre' ++ R :: mid ++ F :: post' /\
       isAuthorCandidate R = true /\
       In (key o, v) (styleMap R) /\
       isFramework F = true /\ isIrrelevant F = false /\
       findProp (key o) (styleMap F) = Some (key o, w) /\
       Forall (fun a => declares a (key o) = false) post' /\
       o = {| key := key o; before := toString v; after := toString w;
              rule := selectorText R |}) /\
  (computeOverriddenProperties (pre ++ r :: post) = computeOverriddenProperties (pre ++ post)
   <->
   forall a R b P v,
     pre = a ++ R :: b ->
     isAuthorCandidate R = true ->
     In (P, v) (styleMap R) ->
     declares r P = true ->
     Forall (fun x => declares x P = false) post ->
     checkProperty (pre ++ post) (length a) R (P, v) = None).
Proof.
  intros Hr. split; [|split].
  - intros rules acc i. unfold reducer.
    apply irrelevant_not_author in Hr. unfold isAuthorCandidate in Hr.
    destruct (isBackpackClassRule r); [reflexivity|]. simpl in Hr. now rewrite Hr.
  - intros o Ho. apply override_origin in Ho
      as (pre' & R & mid & F & post' & v & w & E & HR & Hin & HF & Hw & Hpost & _ & Ho).
    exists pre', R, mid, F, post', v, w. repeat split; auto.
    unfold isIrrelevant. now rewrite HF.
  - rewrite !computeOverriddenProperties_resolveFrom. split.
    + intros Heq a R b P v -> HR Hin Hd Hpost.
      unfold checkProperty. rewrite <- app_assoc. simpl. rewrite skipn_after. simpl.
      destruct (checkAfterRules R P v (rev (b ++ post))) as [o|] eqn:Hwithout; [|reflexivity].
      exfalso.
      assert (Hlt : length (resolveFrom ((a ++ R :: b) ++ r :: post))
                    < length (resolveFrom ((a ++ R :: b) ++ post))).
      { clear Heq. induction a as [|x a IH]; simpl; rewrite !length_app.
        - pose proof (resolveFrom_length_le b r post Hr) as Hle.
          assert (length (contribution R (b ++ r :: post))
                  < length (contribution R (b ++ post))); [|lia].
          unfold contribution. rewrite HR. apply filterDefined_length_lt.
          + intros [P' v'] _. simpl.
            destruct (checkAfterRules_with_irrelevant R P' v' b r post Hr)
              as [E|(_ & _ & E)]; auto.
          + exists (P, v). split; [exact Hin|]. simpl. split; [|congruence].
            destruct (checkAfterRules_with_irrelevant R P v b r post Hr)
              as [E|(_ & _ & E)]; [|exact E].
            exfalso. revert E. rewrite Hwithout, rev_app_distr. simpl.
            rewrite <- app_assoc. simpl.
            rewrite checkAfterRules_skip by now apply Forall_rev.
            apply declares_true in Hd as [w Hw].
            rewrite (checkAfterRules_first _ _ _ _ _ _ Hw).
            unfold isIrrelevant in Hr. apply andb_prop in Hr as [Hr _]. rewrite Hr.
            discriminate.
        - pose proof (contribution_length_le x ((a ++ R :: b)) r post Hr). lia. }
      rewrite Heq in Hlt. lia.
    + intros Hcond.
      assert (G : forall b a, pre = a ++ b ->
                  resolveFrom (b ++ r :: post) = resolveFrom (b ++ post)).
      { induction b as [|R b IH]; intros a Hpre; simpl.
        - now rewrite contribution_not_author by now apply irrelevant_not_author.
        - rewrite (IH (a ++ [R])) by now rewrite <- app_assoc. f_equal.
          unfold contribution. destruct (isAuthorCandidate R) eqn:HR; [|reflexivity].
          f_equal. apply map_ext_in. intros [P v] Hin. simpl.
          destruct (checkAfterRules_with_irrelevant R P v b r post Hr)
            as [E|(Hd & Hpost & E)]; [exact E|].
          rewrite E. symmetry.
          specialize (Hcond a R b P v Hpre HR Hin Hd Hpost).
          unfold checkProperty in Hcond. rewrite Hpre, <- app_assoc in Hcond.
          simpl in Hcond. now rewrite skipn_after in Hcond. }
      exact (G pre [] eq_refl).
Qed.

End ResolverOutput.

(** ** More on findCssRules *)

Section RuleLookupMore.

Context {V Exn : Type}.

Implicit Types (el : Element Exn) (r : CSSStyleRule V) (sheet : CSSStyleSheet V Exn).
Implicit Types (sheets : list (CSSStyleSheet V Exn)) (rules : list (CSSStyleRule V)).

Lemma findCssRulesIn_cons el sheet sheets :
  findCssRulesIn el (sheet :: sheets) = visitSheet el [] sheet ++ findCssRulesIn el sheets.
Proof. exact (findCssRulesIn_app el [sheet] sheets). Qed.

Lemma pushMatching_sublist el rules :
  fst (pushMatching el rules []) `sublist_of` List.filter (matched el) rules.
Proof.
  induction rules as [|r rules IH]; simpl; [constructor|].
  unfold matched at 1. destruct (matches el (selectorText r)) as [[|]|e]; simpl.
  - rewrite pushMatching_acc. simpl. now constructor.
  - exact IH.
  - apply sublist_nil_l.
Qed.

Lemma pushMatching_all_evaluate el rules :
  Forall (fun r => exists b, matches el (selectorText r) = Normal b) rules ->
  fst (pushMatching el rules []) = List.filter (matched el) rules.
Proof.
  induction 1 as [|r rules [b Hr] _ IH]; simpl; [reflexivity|].
  unfold matched at 1. rewrite Hr. destruct b.
  - rewrite pushMatching_acc. simpl. now rewrite IH.
  - exact IH.
Qed.

Lemma findCssRulesIn_sublist el sheets :
  findCssRulesIn el sheets `sublist_of` findCssRules_perRuleRecovery el sheets.
Proof.
  induction sheets as [|sheet sheets IH]; [constructor|].
  rewrite findCssRulesIn_cons. simpl. apply sublist_app; [|exact IH].
  unfold visitSheet. destruct (cssRules sheet); [apply pushMatching_sublist|constructor].
Qed.

Lemma findCssRulesIn_In el sheets r :
  In r (findCssRulesIn el sheets) ->
  matches el (selectorText r) = Normal true /\
  exists sheet rules, In sheet sheets /\ cssRules sheet = Normal rules /\ In r rules.
Proof.
  intros Hr. apply list_elem_of_In in Hr.
  eapply sublist_subseteq in Hr; [|apply findCssRulesIn_sublist].
  apply list_elem_of_In in Hr.
  unfold findCssRules_perRuleRecovery in Hr. apply in_flat_map in Hr as (sheet & Hs & Hr).
  destruct (cssRules sheet) as [rules|e] eqn:E; [|destruct Hr].
  apply filter_In in Hr as [Hr Hm]. split.
  - unfold matched in Hm. destruct (matches el (selectorText r)) as [[|]|]; congruence.
  - eauto.
Qed.

(** X7: what [findCssRules] returns is always a sublist of the matching
    rules of the readable sheets, in sheet order and rule order: every rule
    in it matched the element and sits in a readable sheet. *)
Theorem X7_found_rules_matched_in_order el sheets :
  findCssRulesIn el sheets `sublist_of` findCssRules_perRuleRecovery el sheets /\
  forall r, In r (findCssRulesIn el sheets) ->
    matches el (selectorText r) = Normal true /\
    exists sheet rules, In sheet sheets /\ cssRules sheet = Normal rules /\ In r rules.
Proof.
  split; [apply findCssRulesIn_sublist|apply findCssRulesIn_In].
Qed.

(** X8: when every selector of every readable sheet can be evaluated
    against the element, [findCssRules] returns exactly the matching rules
    of the readable sheets. *)
Theorem X8_all_matching_rules_found el sheets :
  (forall sheet rules r, In sheet sheets -> cssRules sheet = Normal rules -> In r rules ->
     exists b, matches el (selectorText r) = Normal b) ->
  findCssRulesIn el sheets = findCssRules_perRuleRecovery el sheets.
Proof.
  induction sheets as [|sheet sheets IH]; intros Hev; [reflexivity|].
  rewrite findCssRulesIn_cons. simpl. f_equal.
  - unfold visitSheet. destruct (cssRules sheet) as [rules|e] eqn:E; [|reflexivity].
    apply pushMatching_all_evaluate. apply List.Forall_forall. intros r Hr.
    apply (Hev sheet rules r); auto. now left.
  - apply IH. intros s rules r Hs. apply Hev. now right.
Qed.

(** X9: a sheet whose rule list cannot be read adds nothing and disturbs
    nothing: the result is the same as without it. *)
Theorem X9_unreadable_sheet_is_skipped el sheetsBefore sheet sheetsAfter e :
  cssRules sheet = Throw e ->
  findCssRulesIn el (sheetsBefore ++ sheet :: sheetsAfter) =
  findCssRulesIn el (sheetsBefore ++ sheetsAfter).
Proof.
  intros Hs. rewrite !findCssRulesIn_app, findCssRulesIn_cons.
  unfold visitSheet. now rewrite Hs.
Qed.

End RuleLookupMore.

(** ** More on scan *)

Section ScanMore.

Context {V : Type} `{ToString V} {Exn : Type}.

Implicit Types (d : Document V Exn) (e : Element Exn) (res : ScanResult Exn).

(** The part of [scan] after the element query. *)
Lemma scan_unfold d :
  scan d = filterDefined (List.filter surfaced
             (List.map (scanElement d)
                (List.filter (fun e => existsb (String.eqb (localName e)) scannedTags)
                   (allElements d)))).
Proof. reflexivity. Qed.

Lemma scanElement_sheets d d' e :
  styleSheets d = styleSheets d' -> scanElement d e = scanElement d' e.
Proof. intros Hs. unfold scanElement, findCssRules. now rewrite Hs. Qed.

(** X10: only elements with a class outside the framework's naming are
    reported; an element without classes, or with framework classes only,
    never is. *)
Theorem X10_results_have_own_class d res :
  In res (scan d) ->
  exists cn, In cn (classList (element res)) /\ Str.startsWith cn "Bpk" = false.
Proof.
  intros Hres. apply scan_In in Hres as (e & _ & He & _).
  unfold scanElement in He.
  destruct (hasOwnNonBackpackClass e) eqn:Hc; simpl in He; [|discriminate].
  injection He as <-. simpl.
  unfold hasOwnNonBackpackClass in Hc. apply existsb_exists in Hc as (cn & Hin & Hcn).
  exists cn. split; [exact Hin|]. now apply negb_true_iff in Hcn.
Qed.

Lemma scan_elements_sublist d (es : list (Element Exn)) :
  List.map element
    (filterDefined (List.filter surfaced (List.map (scanElement d) es)))
  `sublist_of` es.
Proof.
  induction es as [|e es IH]; simpl; [constructor|].
  destruct (scanElement d e) as [res|] eqn:E; simpl.
  - apply scanElement_Some in E as [He _].
    destruct (Nat.ltb 0 (length (overriddenProperties res))); simpl.
    + rewrite He. now constructor.
    + now constructor.
  - now constructor.
Qed.

Lemma filter_sublist {A : Type} (p : A -> bool) (l : list A) :
  List.filter p l `sublist_of` l.
Proof.
  induction l as [|a l IH]; simpl; [constructor|].
  destruct (p a); now constructor.
Qed.

(** X11: the results come in document order, each element at most as often
    as it occurs in the document. *)
Theorem X11_results_in_document_order d :
  List.map element (scan d) `sublist_of` allElements d.
Proof.
  rewrite scan_unfold.
  etransitivity; [apply scan_elements_sublist|apply filter_sublist].
Qed.

(** X12: the elements are scanned one by one: the result for a document is
    the result for its first elements followed by the result for the
    others, under the same style sheets. *)
Theorem X12_scan_element_by_element (es1 es2 : list (Element Exn))
    (sheets : list (CSSStyleSheet V Exn)) :
  scan {| allElements := es1 ++ es2; styleSheets := sheets |} =
  scan {| allElements := es1; styleSheets := sheets |}
  ++ scan {| allElements := es2; styleSheets := sheets |}.
Proof.
  rewrite !scan_unfold. cbn [allElements].
  rewrite List.filter_app, List.map_app, List.filter_app, filterDefined_app.
  reflexivity.
Qed.

(** X13: on a page where no rule of a readable sheet has a selector starting
    with the framework prefix, [scan] returns nothing. *)
Theorem X13_no_framework_rules_empty_scan d :
  (forall sheet rules r, In sheet (styleSheets d) -> cssRules sheet = Normal rules ->
     In r rules -> isFramework r = false) ->
  scan d = [].
Proof.
  intros Hnf. apply nil_of_no_member. intros res Hres.
  apply scan_In in Hres as (e & _ & He & Hs).
  apply scanElement_Some in He as [_ Hov]. simpl in Hs.
  rewrite Hov, computeOverriddenProperties_resolveFrom in Hs.
  rewrite resolveFrom_no_framework in Hs; [discriminate|].
  apply List.Forall_forall. intros r Hr.
  apply findCssRulesIn_In in Hr as (_ & sheet & rules & Hsheet & Hrules & Hin).
  eauto.
Qed.

End ScanMore.

(** ** More on EventEmitter *)

Section EmitterMore.

Context {S Data Exn : Type}.

Implicit Types (em : Emitter.EventEmitter S Data Exn) (h : list (Emitter.Handler S Data Exn)).
Implicit Types (handler : Emitter.Handler S Data Exn) (w : Emitter.World S Exn).

Lemma getSlot_on_same em event handler em' :
  Emitter.on em event handler = Normal em' ->
  Emitter.getSlot em' event =
    Emitter.Listeners (match Emitter.getSlot em event with
                       | Emitter.Listeners h => h ++ [handler]
                       | _ => [handler]
                       end).
Proof.
  unfold Emitter.on. destruct (Emitter.getSlot em event) eqn:E; intros Hon;
    try discriminate Hon; injection Hon as <-;
    unfold Emitter.getSlot; simpl; now rewrite lookup_insert_eq.
Qed.

Lemma getSlot_on_other em event handler em' event' :
  Emitter.on em event handler = Normal em' ->
  event' <> event ->
  Emitter.getSlot em' event' = Emitter.getSlot em event'.
Proof.
  unfold Emitter.on. intros Hon Hne.
  destruct (Emitter.getSlot em event); try discriminate Hon; injection Hon as <-;
    unfold Emitter.getSlot; simpl; now rewrite lookup_insert_ne.
Qed.

(** X14: a listener added with [on] is called by the next [send] of that
    event after all the listeners that were there, on the page as they
    leave it. *)
Theorem X14_new_listener_runs_last em event handler em' data w :
  event <> "" ->
  Emitter.on em event handler = Normal em' ->
  Emitter.send em' event data w =
    (Emitter.invoke data (fst (Emitter.send em event data w)) handler, Normal tt).
Proof.
  intros Hev Hon. unfold Emitter.send.
  destruct (String.eqb_spec event ""); [contradiction|].
  rewrite (getSlot_on_same _ _ _ _ Hon).
  unfold Emitter.on in Hon.
  destruct (Emitter.getSlot em event); try discriminate; simpl; [reflexivity|].
  now rewrite fold_left_app.
Qed.

(** X15: [on] for one event leaves every other event as it was. *)
Theorem X15_on_leaves_other_events em event handler em' event' data w :
  Emitter.on em event handler = Normal em' ->
  event' <> event ->
  Emitter.send em' event' data w = Emitter.send em event' data w.
Proof.
  intros Hon Hne. unfold Emitter.send.
  now rewrite (getSlot_on_other _ _ _ _ _ Hon Hne).
Qed.

(** X16: [on] accepts the empty event name and stores the listener, but
    [send] returns at its first test for that name: the listener is never
    called. *)
Theorem X16_empty_event_is_never_sent em handler :
  Emitter.getSlot em "" <> Emitter.Inherited /\
  exists em', Emitter.on em "" handler = Normal em' /\
    (exists h, Emitter.getSlot em' "" = Emitter.Listeners (h ++ [handler])) /\
    forall data w, Emitter.send em' "" data w = (w, Normal tt).
Proof.
  assert (Hslot : Emitter.getSlot em "" <> Emitter.Inherited).
  { unfold Emitter.getSlot. destruct (Emitter.handlers em !! ""); discriminate. }
  split; [exact Hslot|].
  destruct (Emitter.on em "" handler) as [em'|e] eqn:Hon.
  - exists em'. split; [reflexivity|]. split; [|reflexivity].
    rewrite (getSlot_on_same _ _ _ _ Hon).
    destruct (Emitter.getSlot em ""); [now exists []|now exists h|now exists []].
  - unfold Emitter.on in Hon. destruct (Emitter.getSlot em ""); congruence.
Qed.

Lemma built_no_inherited_key em event :
  Emitter.built em ->
  In event Emitter.objectPrototypeKeys ->
  Emitter.getSlot em event = Emitter.Inherited.
Proof.
  intros Hb Hin.
  assert (Hk : existsb (String.eqb event) Emitter.objectPrototypeKeys = true).
  { apply existsb_exists. exists event. split; [exact Hin|apply String.eqb_refl]. }
  induction Hb as [|em ev handler em' _ IH Hon].
  - unfold Emitter.getSlot, Emitter.create. cbn [Emitter.handlers].
    rewrite lookup_empty. now rewrite Hk.
  - destruct (String.eqb_spec event ev) as [->|Hne].
    + unfold Emitter.on in Hon. rewrite IH in Hon. discriminate.
    + now rewrite (getSlot_on_other _ _ _ _ _ Hon Hne).
Qed.

(** X17: the listener table is a plain object, so for an event named like a
    member of [Object.prototype] the lookup finds that member: on an emitter
    built by [on] calls, [on] throws without storing the listener and [send]
    throws without touching the page. *)
Theorem X17_inherited_names_throw em event handler data w :
  Emitter.built em ->
  In event Emitter.objectPrototypeKeys ->
  Emitter.on em event handler = Throw (Emitter.NotAFunction "push") /\
  Emitter.send em event data w = (w, Throw (Emitter.NotAFunction "forEach")).
Proof.
  intros Hb Hin. pose proof (built_no_inherited_key em event Hb Hin) as Hslot.
  unfold Emitter.on, Emitter.send. rewrite Hslot. split; [reflexivity|].
  destruct (String.eqb_spec event "") as [->|_]; [|reflexivity].
  exfalso. revert Hin. vm_compute. intuition discriminate.
Qed.

End EmitterMore.

(** ** More on the mutation watcher *)

Section DebounceMore.

Import Watcher.
Local Open Scope Z_scope.

(** X18: whatever signals arrive and however long one waits, at most one
    timer is pending at any time and the timers make at most one scan. *)
Theorem X18_one_timer_one_scan trace :
  (length (timers (run trace init)) <= 1)%nat /\
  (scans (run trace init) <= 1)%nat.
Proof.
  assert (Hr : reachable (run trace init)) by (apply run_reachable, Idle; lia).
  destruct Hr; simpl; lia.
Qed.

Lemma elapsed_nonneg trace : 0 <= elapsed trace.
Proof.
  induction trace as [|[|ms] trace IH]; simpl; lia.
Qed.

(** As long as the clock stays below [bound] and no timer is due before
    [bound], nothing fires. *)
Lemma run_no_scan_yet trace : forall st bound,
  Forall (fun t => bound <= snd t) (timers st) ->
  bound <= now st + 500 ->
  now st + elapsed trace < bound ->
  scans (run trace st) = scans st.
Proof.
  induction trace as [|ev trace IH]; intros st bound Hall Hb Hlt; [reflexivity|].
  change (run (ev :: trace) st) with (run trace (step st ev)).
  destruct ev as [|ms]; cbn [step elapsed] in *.
  - unfold throttledUpdate. destruct (truthy (updateTimeout st)).
    + now apply (IH st bound).
    + cbn [setTimeout]. rewrite (IH _ bound); cbn [timers now scans]; try assumption.
      * reflexivity.
      * apply Forall_app. split; [exact Hall|].
        constructor; [simpl; lia|constructor].
  - pose proof (elapsed_nonneg trace) as Hnn.
    unfold fireDue. cbn [timers now].
    assert (E : List.filter (fun t => snd t <=? now st + Z.max 0 ms) (timers st) = []).
    { induction Hall as [|t ts Ht _ IHt]; simpl; [reflexivity|].
      destruct (Z.leb_spec (snd t) (now st + Z.max 0 ms)); [lia|exact IHt]. }
    rewrite E. cbn [fold_left].
    rewrite (IH _ bound); cbn [timers now scans]; try assumption; try reflexivity; lia.
Qed.

(** X19: no scan is made before 500 ms have passed since the script
    started watching, however many mutation signals arrive. *)
Theorem X19_no_scan_before_the_delay trace :
  elapsed trace < 500 ->
  scans (run trace init) = 0%nat.
Proof.
  intros Hlt. rewrite (run_no_scan_yet trace init 500); simpl; auto; lia.
Qed.

(** X20: one or more signals followed by a wait of at least 500 ms lead to
    exactly one scan, at the end of the wait. *)
Theorem X20_first_burst_scans_once (n : nat) (ms : Z) :
  500 <= ms ->
  scans (run (burst (Datatypes.S n)) init) = 0%nat /\
  scans (run (burst (Datatypes.S n) ++ [Wait ms]) init) = 1%nat.
Proof.
  intros Hms.
  assert (Hb : run (burst (Datatypes.S n)) init = throttledUpdate init).
  { change (burst (Datatypes.S n)) with (Mutation :: burst n).
    change (run (Mutation :: burst n) init) with (run (burst n) (throttledUpdate init)).
    now rewrite run_burst_armed. }
  split; [now rewrite Hb|].
  rewrite run_app, Hb. unfold run, step, fireDue. simpl.
  destruct (Z.leb_spec (0 + 500) (0 + Z.max 0 ms)); [reflexivity|lia].
Qed.

End DebounceMore.

(** ** The toggle *)

Section ToggleFacts.

Context {S Exn : Type}.

Implicit Types (t : Toggle.Toggle S Exn) (w : Emitter.World S Exn).
Implicit Types (em : Emitter.EventEmitter S bool Exn) (handler : Emitter.Handler S bool Exn).

(** [change] is not a name that the listener table inherits. *)
Lemma getSlot_change em : Emitter.getSlot em "change" <> Emitter.Inherited.
Proof.
  unfold Emitter.getSlot. destruct (Emitter.handlers em !! "change"); discriminate.
Qed.

Lemma send_change_returns em data w :
  snd (Emitter.send em "change" data w) = Normal tt.
Proof.
  unfold Emitter.send. simpl. pose proof (getSlot_change em) as Hs.
  destruct (Emitter.getSlot em "change"); simpl; congruence.
Qed.

Lemma on_change_returns em handler :
  exists em', Emitter.on em "change" handler = Normal em'.
Proof.
  unfold Emitter.on. pose proof (getSlot_change em) as Hs.
  destruct (Emitter.getSlot em "change"); eauto. congruence.
Qed.

Lemma updateDisplay_shows t : Toggle.shows (Toggle.updateDisplay t) (Toggle.state t).
Proof.
  unfold Toggle.shows, Toggle.updateDisplay. simpl.
  destruct (Toggle.state t); simpl; split;
    (rewrite lookup_insert_ne by discriminate; apply lookup_insert_eq)
    || apply lookup_insert_eq.
Qed.

Lemma updateDisplay_shows_own t :
  Toggle.shows (Toggle.updateDisplay t) (Toggle.state (Toggle.updateDisplay t)).
Proof. exact (updateDisplay_shows t). Qed.

Lemma click_unfold t w :
  Toggle.click t w =
  (Toggle.updateDisplay
     {| Toggle.state := negb (Toggle.state t);
        Toggle.outerStyle := Toggle.outerStyle t;
        Toggle.innerStyle := Toggle.innerStyle t;
        Toggle.label := Toggle.label t;
        Toggle.events := Toggle.events t |},
   fst (Emitter.send (Toggle.events t) "change" [negb (Toggle.state t)] w),
   Normal tt).
Proof.
  unfold Toggle.click, Toggle.setState. cbn [Toggle.events].
  pose proof (send_change_returns (Toggle.events t) [negb (Toggle.state t)] w) as Hs.
  destruct (Emitter.send (Toggle.events t) "change" [negb (Toggle.state t)] w) as [w1 c].
  simpl in Hs. subst c. reflexivity.
Qed.

(** X21: a click always goes through: the state is flipped, the listeners
    of the change event are sent the new state, and the knob is redrawn for
    the new state, also when a listener throws; the emitter, the outer
    style and the label stay as they are. *)
Theorem X21_click_flips_and_redraws t w :
  let '(t', w', c) := Toggle.click t w in
  c = Normal tt /\
  Toggle.state t' = negb (Toggle.state t) /\
  Toggle.shows t' (negb (Toggle.state t)) /\
  Toggle.events t' = Toggle.events t /\
  Toggle.outerStyle t' = Toggle.outerStyle t /\
  Toggle.label t' = Toggle.label t /\
  w' = fst (Emitter.send (Toggle.events t) "change" [negb (Toggle.state t)] w).
Proof.
  rewrite click_unfold. repeat split; try reflexivity;
    apply (updateDisplay_shows
             {| Toggle.state := negb (Toggle.state t);
                Toggle.outerStyle := Toggle.outerStyle t;
                Toggle.innerStyle := Toggle.innerStyle t;
                Toggle.label := Toggle.label t;
                Toggle.events := Toggle.events t |}).
Qed.

Lemma listen_keeps t handler :
  Toggle.state (Toggle.listen t handler) = Toggle.state t /\
  Toggle.innerStyle (Toggle.listen t handler) = Toggle.innerStyle t.
Proof.
  unfold Toggle.listen. destruct (Emitter.on (Toggle.events t) "change" handler); auto.
Qed.

Lemma listen_all_keeps (handlers : list (Emitter.Handler S bool Exn)) t :
  Toggle.state (fold_left Toggle.listen handlers t) = Toggle.state t /\
  Toggle.innerStyle (fold_left Toggle.listen handlers t) = Toggle.innerStyle t.
Proof.
  revert t. induction handlers as [|handler handlers IH]; intros t; simpl; [auto|].
  destruct (IH (Toggle.listen t handler)) as [-> ->]. apply listen_keeps.
Qed.

Lemma clicks_state n : forall t w,
  Toggle.shows t (Toggle.state t) ->
  Toggle.state (fst (Toggle.clicks n t w)) = xorb (Toggle.state t) (Nat.odd n) /\
  Toggle.shows (fst (Toggle.clicks n t w)) (Toggle.state (fst (Toggle.clicks n t w))).
Proof.
  induction n as [|n IH]; intros t w Hsh.
  - simpl. split; [now rewrite xorb_false_r|exact Hsh].
  - cbn [Toggle.clicks]. rewrite click_unfold.
    match goal with |- context [Toggle.clicks n ?t1 ?w1] => destruct (IH t1 w1) as [E Hs] end.
    + apply updateDisplay_shows_own.
    + split; [|exact Hs]. rewrite E. cbn [Toggle.state Toggle.updateDisplay].
      rewrite Nat.odd_succ, <- Nat.negb_odd.
      destruct (Toggle.state t), (Nat.odd n); reflexivity.
Qed.

(** X22: a new toggle is drawn for its initial state, and after any number
    of clicks, with any listeners registered, throwing or not, the state is
    the initial one flipped once per click and the knob is drawn for it. *)
Theorem X22_display_follows_clicks (initialState : bool) (labelText : option string)
    (handlers : list (Emitter.Handler S bool Exn)) (n : nat) w :
  let t0 := fold_left Toggle.listen handlers
              (Toggle.createToggleElement initialState labelText) in
  let t := fst (Toggle.clicks n t0 w) in
  Toggle.shows t0 initialState /\
  Toggle.state t = xorb initialState (Nat.odd n) /\
  Toggle.shows t (Toggle.state t).
Proof.
  intros t0 t.
  assert (Hst : Toggle.state t0 = initialState).
  { unfold t0. now rewrite (proj1 (listen_all_keeps _ _)). }
  assert (Hsh : Toggle.shows t0 initialState).
  { unfold Toggle.shows, t0. rewrite (proj2 (listen_all_keeps _ _)).
    apply (updateDisplay_shows
             {| Toggle.state := initialState;
                Toggle.outerStyle := _; Toggle.innerStyle := _;
                Toggle.label := _; Toggle.events := Emitter.create |}). }
  split; [exact Hsh|].
  rewrite <- Hst in *. unfold t. now apply clicks_state.
Qed.

(** X23: a listener registered on a toggle's emitter is called at the next
    click with the new state, after the listeners that were there. *)
Theorem X23_registered_listener_hears_clicks t handler w :
  snd (fst (Toggle.click (Toggle.listen t handler) w)) =
  Emitter.invoke [negb (Toggle.state t)] (snd (fst (Toggle.click t w))) handler.
Proof.
  rewrite !click_unfold. cbn [fst snd].
  rewrite (proj1 (listen_keeps t handler)).
  unfold Toggle.listen.
  destruct (on_change_returns (Toggle.events t) handler) as [em' Hon]. rewrite Hon.
  cbn [Toggle.events].
  unfold Emitter.send. simpl String.eqb. cbv iota.
  rewrite (getSlot_on_same _ _ _ _ Hon).
  pose proof (getSlot_change (Toggle.events t)) as Hs.
  destruct (Emitter.getSlot (Toggle.events t) "change"); simpl; try congruence.
  now rewrite fold_left_app.
Qed.

End ToggleFacts.

(** ** The panel *)

Section PresenterFacts.

Context {V : Type} `{ToString V} {Exn : Type}.
Context {K : Type} `{Countable K} (identify : Element Exn -> K).
Context {St : Type} `{StyleObject St}.

Import Presenter.

Implicit Types (pg : Page Exn K St) (sc : Script Exn K St) (k : K) (prop : string).
Implicit Types (res : ScanResult Exn) (d : Document V Exn).

Lemma objectOf_insert pg k k' o :
  objectOf {| results := results pg; objects := <[k' := o]> (objects pg) |} k =
  if decide (k = k') then o else objectOf pg k.
Proof.
  unfold objectOf. simpl. destruct (decide (k = k')) as [->|Hne].
  - now rewrite lookup_insert_eq.
  - now rewrite lookup_insert_ne.
Qed.

Lemma datasetOf_setStyle pg k name k' prop' value :
  datasetOf (setStyle k' prop' value pg) k name = datasetOf pg k name.
Proof.
  unfold datasetOf, setStyle. rewrite objectOf_insert.
  destruct (decide (k = k')) as [->|Hk]; reflexivity.
Qed.

Lemma results_setStyle pg k' prop' value :
  results (setStyle k' prop' value pg) = results pg.
Proof. reflexivity. Qed.

Lemma styleOf_setDataset pg k prop k' name v :
  styleOf (setDataset k' name v pg) k prop = styleOf pg k prop.
Proof.
  unfold styleOf, setDataset. rewrite objectOf_insert.
  destruct (decide (k = k')) as [->|Hk]; reflexivity.
Qed.

Lemma datasetOf_setDataset pg k name k' name' v :
  datasetOf (setDataset k' name' v pg) k name =
  if decide (k = k' /\ name = name') then Some v else datasetOf pg k name.
Proof.
  unfold datasetOf, setDataset. rewrite objectOf_insert.
  destruct (decide (k = k')) as [->|Hk]; simpl.
  - destruct (decide (name = name')) as [->|Hn].
    + rewrite decide_True by auto. now rewrite lookup_insert_eq.
    + rewrite decide_False by tauto. now rewrite lookup_insert_ne.
  - rewrite decide_False by tauto. reflexivity.
Qed.

(** *** A run of style assignments *)

Lemma applyWrites_app (ws1 ws2 : list (K * string * string)) pg :
  applyWrites (ws1 ++ ws2) pg = applyWrites ws2 (applyWrites ws1 pg).
Proof. apply fold_left_app. Qed.

Lemma applyWrites_cons k' p' v (ws : list (K * string * string)) pg :
  applyWrites ((k', p', v) :: ws) pg = applyWrites ws (setStyle k' p' (Some v) pg).
Proof. reflexivity. Qed.

Lemma applyWrites_keeps (ws : list (K * string * string)) pg :
  results (applyWrites ws pg) = results pg /\
  forall k name, datasetOf (applyWrites ws pg) k name = datasetOf pg k name.
Proof.
  revert pg. induction ws as [|[[k' p'] v] ws IH]; intros pg; [auto|].
  rewrite applyWrites_cons.
  destruct (IH (setStyle k' p' (Some v) pg)) as [-> Hd]. split; [reflexivity|].
  intros k name. rewrite Hd. apply datasetOf_setStyle.
Qed.

(** *** The two listeners as runs of assignments *)

Lemma fixHandler_writes (data : list bool) pg :
  fixHandler identify data pg =
  (applyWrites (fixWrites identify (firstArg data) (results pg)) pg, Normal tt).
Proof.
  unfold fixHandler. f_equal.
  generalize (results pg) as rs. intros rs. revert pg.
  induction rs as [|res rs IH]; intros pg; [reflexivity|].
  cbn [fold_left fixWrites flat_map]. rewrite applyWrites_app, IH. f_equal.
  generalize (overriddenProperties res) as os. intros os. revert pg.
  induction os as [|o os IHo]; intros pg; [reflexivity|].
  cbn [fold_left List.map]. rewrite applyWrites_cons. apply IHo.
Qed.

Lemma highlightHandler_writes (data : list bool) pg :
  highlightHandler identify data pg =
  (applyWrites (highlightWrites identify (firstArg data) pg (results pg)) pg, Normal tt).
Proof.
  unfold highlightHandler. f_equal.
  generalize (results pg) as rs. intros rs.
  assert (G : forall p : Page Exn K St,
    (forall k name, datasetOf p k name = datasetOf pg k name) ->
    fold_left
      (fun p0 res =>
         setStyle (identify (element res)) "boxShadow"
           (if firstArg data then Some highlightShadow
            else datasetOf p0 (identify (element res)) "originalBoxShadow") p0) rs p =
    applyWrites (highlightWrites identify (firstArg data) pg rs) p).
  { induction rs as [|res rs IH]; intros p Hp; [reflexivity|].
    cbn [fold_left highlightWrites List.map]. rewrite applyWrites_cons.
    rewrite IH by (intros k name; now rewrite datasetOf_setStyle).
    f_equal. rewrite Hp. unfold setStyle. destruct (firstArg data); reflexivity. }
  apply G. reflexivity.
Qed.

(** *** A click on a panel toggle *)

Lemma send_single (em : Emitter.EventEmitter (Page Exn K St) bool Exn)
    (handler : Emitter.Handler (Page Exn K St) bool Exn) (data : list bool)
    (w : Emitter.World (Page Exn K St) Exn) pg' :
  Emitter.getSlot em "change" = Emitter.Listeners [handler] ->
  handler data (Emitter.page w) = (pg', Normal tt) ->
  fst (Emitter.send em "change" data w) =
    {| Emitter.page := pg'; Emitter.console := Emitter.console w |}.
Proof.
  intros Hs Hh. unfold Emitter.send. simpl String.eqb. cbv iota. rewrite Hs.
  cbn [fst fold_left]. unfold Emitter.invoke. now rewrite Hh.
Qed.

Lemma clickToggle_writes (w : which) sc p :
  wrapper sc = Some p ->
  scriptListeners identify p ->
  clickToggle w sc =
  {| page := applyWrites (writesOf identify w (negb (Toggle.state (toggleOf w p))) (page sc))
             (page sc);
     wrapper := Some (withToggle w (fst (fst (Toggle.click (toggleOf w p)
                  {| Emitter.page := page sc; Emitter.console := console sc |}))) p);
     initialisedElements := initialisedElements sc;
     console := console sc |}.
Proof.
  intros Hw [Hh Hf]. unfold clickToggle. rewrite Hw.
  rewrite click_unfold. cbn [fst snd].
  assert (E : fst (Emitter.send (Toggle.events (toggleOf w p)) "change"
                     [negb (Toggle.state (toggleOf w p))]
                     {| Emitter.page := page sc; Emitter.console := console sc |}) =
              {| Emitter.page :=
                   applyWrites
                     (writesOf identify w (negb (Toggle.state (toggleOf w p))) (page sc))
                     (page sc);
                 Emitter.console := console sc |}).
  { destruct w; cbn [toggleOf writesOf].
    - apply (send_single _ (highlightHandler identify)); [exact Hh|].
      now rewrite highlightHandler_writes.
    - apply (send_single _ (fixHandler identify)); [exact Hf|].
      now rewrite fixHandler_writes. }
  rewrite E. reflexivity.
Qed.

(** *** update *)

Lemma initialise_step sc res :
  wrapper (initialise identify sc res) = wrapper sc /\
  results (page (initialise identify sc res)) = results (page sc) /\
  console (initialise identify sc res) = console sc /\
  (forall k prop, styleOf (page (initialise identify sc res)) k prop = styleOf (page sc) k prop) /\
  initialisedElements sc ⊆ initialisedElements (initialise identify sc res) /\
  identify (element res) ∈ initialisedElements (initialise identify sc res) /\
  (forall k, k ∈ initialisedElements sc -> forall name,
     datasetOf (page (initialise identify sc res)) k name = datasetOf (page sc) k name) /\
  ((forall k, k ∈ initialisedElements sc ->
      is_Some (datasetOf (page sc) k "originalBoxShadow")) ->
   forall k, k ∈ initialisedElements (initialise identify sc res) ->
      is_Some (datasetOf (page (initialise identify sc res)) k "originalBoxShadow")).
Proof.
  unfold initialise.
  destruct (decide (identify (element res) ∈ initialisedElements sc)) as [Hin|Hnin].
  - repeat split; auto.
  - cbn [page wrapper console initialisedElements].
    split; [reflexivity|]. split; [reflexivity|]. split; [reflexivity|].
    split; [intros k prop; apply styleOf_setDataset|].
    split; [apply union_subseteq_r|].
    split; [apply elem_of_union_l, elem_of_singleton; reflexivity|]. split.
    + intros k Hk name. rewrite datasetOf_setDataset.
      rewrite decide_False; [reflexivity|]. intros [-> _]. contradiction.
    + intros Hall k Hk. rewrite datasetOf_setDataset.
      destruct (decide (k = identify (element res) /\ "originalBoxShadow" = "originalBoxShadow"))
        as [_|Hne]; [eauto|].
      apply Hall. apply elem_of_union in Hk as [Hk|Hk]; [|exact Hk].
      apply elem_of_singleton in Hk. tauto.
Qed.

Lemma initialise_all (l : list (ScanResult Exn)) : forall sc,
  wrapper (fold_left (initialise identify) l sc) = wrapper sc /\
  results (page (fold_left (initialise identify) l sc)) = results (page sc) /\
  console (fold_left (initialise identify) l sc) = console sc /\
  (forall k prop, styleOf (page (fold_left (initialise identify) l sc)) k prop
                  = styleOf (page sc) k prop) /\
  initialisedElements sc ⊆ initialisedElements (fold_left (initialise identify) l sc) /\
  (forall res, In res l ->
     identify (element res) ∈ initialisedElements (fold_left (initialise identify) l sc)) /\
  (forall k, k ∈ initialisedElements sc -> forall name,
     datasetOf (page (fold_left (initialise identify) l sc)) k name
     = datasetOf (page sc) k name) /\
  ((forall k, k ∈ initialisedElements sc ->
      is_Some (datasetOf (page sc) k "originalBoxShadow")) ->
   forall k, k ∈ initialisedElements (fold_left (initialise identify) l sc) ->
      is_Some (datasetOf (page (fold_left (initialise identify) l sc)) k "originalBoxShadow")).
Proof.
  induction l as [|res l IH]; intros sc.
  - simpl. repeat split; auto. intros res [].
  - cbn [fold_left].
    destruct (initialise_step sc res) as (Hw & Hr & Hc & Hs & Hsub & Hin & Hd & Hsome).
    destruct (IH (initialise identify sc res))
      as (Hw' & Hr' & Hc' & Hs' & Hsub' & Hin' & Hd' & Hsome').
    split; [congruence|]. split; [congruence|]. split; [congruence|].
    split; [intros k prop; now rewrite Hs', Hs|].
    split; [etransitivity; eassumption|]. split.
    + intros r [<-|Hr0]; [eapply elem_of_weaken; eassumption|auto].
    + split.
      * intros k Hk name.
        rewrite Hd' by (eapply elem_of_weaken; eassumption). now apply Hd.
      * auto.
Qed.

Lemma getSlot_create_change :
  Emitter.getSlot (Emitter.create (S:=Page Exn K St) (Data:=bool) (Exn:=Exn)) "change"
  = Emitter.Undefined.
Proof.
  unfold Emitter.getSlot, Emitter.create. cbn [Emitter.handlers].
  rewrite lookup_empty. reflexivity.
Qed.

Lemma listen_new_toggle (b : bool) (labelText : option string)
    (handler : Emitter.Handler (Page Exn K St) bool Exn) :
  Emitter.getSlot
    (Toggle.events (Toggle.listen (Toggle.createToggleElement b labelText) handler))
    "change" = Emitter.Listeners [handler].
Proof.
  unfold Toggle.listen.
  destruct (on_change_returns
              (Toggle.events (Toggle.createToggleElement (S:=Page Exn K St) (Exn:=Exn) b labelText))
              handler) as [em' Hon].
  rewrite Hon. cbn [Toggle.events]. rewrite (getSlot_on_same _ _ _ _ Hon).
  change (Toggle.events (Toggle.createToggleElement b labelText))
    with (Emitter.create (S:=Page Exn K St) (Data:=bool) (Exn:=Exn)).
  now rewrite getSlot_create_change.
Qed.

Lemma createWrapper_spec sc :
  page (createWrapper identify sc) = page sc /\
  initialisedElements (createWrapper identify sc) = initialisedElements sc /\
  console (createWrapper identify sc) = console sc /\
  exists p, wrapper (createWrapper identify sc) = Some p /\
    text p = countText (length (results (page sc))) /\
    (forall p0, wrapper sc = Some p0 ->
       showHighlightToggle p = showHighlightToggle p0 /\
       fixElementPropertiesToggle p = fixElementPropertiesToggle p0) /\
    (wrapper sc = None -> scriptListeners identify p).
Proof.
  unfold createWrapper. destruct (wrapper sc) as [p0|]; cbn [page initialisedElements console wrapper].
  - repeat split; auto. eexists. split; [reflexivity|]. cbn [text].
    split; [reflexivity|]. split; [|discriminate].
    intros p1 [= <-]. auto.
  - repeat split; auto. eexists. split; [reflexivity|]. cbn [text].
    split; [reflexivity|]. split; [discriminate|].
    intros _. split; apply listen_new_toggle.
Qed.

Lemma update_empty d sc :
  scan d = [] ->
  update identify d sc =
  {| page := {| results := []; objects := objects (page sc) |};
     wrapper := wrapper sc;
     initialisedElements := initialisedElements sc;
     console := console sc |}.
Proof. intros Hs. unfold update. cbn [page results]. now rewrite Hs. Qed.

Lemma update_nonempty d sc :
  scan d <> [] ->
  update identify d sc =
  fold_left (initialise identify) (scan d)
    (createWrapper identify
       {| page := {| results := scan d; objects := objects (page sc) |};
          wrapper := wrapper sc;
          initialisedElements := initialisedElements sc;
          console := console sc |}).
Proof.
  intros Hs. unfold update. cbn [page results].
  destruct (scan d); [congruence|reflexivity].
Qed.

(** X24: an [update] that finds nothing only empties [results]: the panel,
    if there is one, keeps its old text. An [update] that finds something
    makes the panel when there is none, keeps the toggles when there is one,
    and puts the number of results found into the text. *)
Theorem X24_update_and_the_panel d sc :
  (scan d = [] ->
     results (page (update identify d sc)) = [] /\
     wrapper (update identify d sc) = wrapper sc) /\
  (scan d <> [] ->
     results (page (update identify d sc)) = scan d /\
     exists p, wrapper (update identify d sc) = Some p /\
       text p = countText (length (scan d)) /\
       forall p0, wrapper sc = Some p0 ->
         showHighlightToggle p = showHighlightToggle p0 /\
         fixElementPropertiesToggle p = fixElementPropertiesToggle p0).
Proof.
  split; intros Hs.
  - rewrite update_empty by exact Hs. auto.
  - rewrite update_nonempty by exact Hs.
    match goal with |- context [createWrapper identify ?s] =>
      destruct (initialise_all (scan d) (createWrapper identify s)) as (Hw & Hr & _);
      destruct (createWrapper_spec s) as (Hp & _ & _ & p & Hwp & Ht & Hold & _)
    end.
    rewrite Hr, Hp, Hw. split; [reflexivity|].
    exists p. split; [exact Hwp|]. split; [exact Ht|exact Hold].
Qed.

(** *** What the actions keep *)

Lemma start_consistent : consistent identify (start (Exn:=Exn) (K:=K) (St:=St)).
Proof.
  unfold consistent, start. cbn [page results wrapper initialisedElements].
  split; [intros res []|]. split; [|reflexivity].
  intros k Hk. now apply elem_of_empty in Hk.
Qed.

Lemma update_keeps d sc :
  consistent identify sc ->
  consistent identify (update identify d sc) /\
  initialisedElements sc ⊆ initialisedElements (update identify d sc) /\
  (forall k, k ∈ initialisedElements sc -> forall name,
     datasetOf (page (update identify d sc)) k name = datasetOf (page sc) k name).
Proof.
  intros (Hres & Hsome & Hwr).
  destruct (scan d) as [|r rs] eqn:Hs.
  - rewrite update_empty by exact Hs. unfold consistent.
    cbn [page results wrapper initialisedElements].
    split; [|split; [reflexivity|reflexivity]].
    split; [intros res []|]. split; [exact Hsome|].
    destruct (wrapper sc); [exact Hwr|reflexivity].
  - rewrite update_nonempty by (rewrite Hs; discriminate). rewrite Hs.
    set (sc1 := {| page := {| results := r :: rs; objects := objects (page sc) |};
                   wrapper := wrapper sc;
                   initialisedElements := initialisedElements sc;
                   console := console sc |}).
    destruct (createWrapper_spec sc1) as (Hp & Hi & _ & p & Hwp & _ & Hold & Hnew).
    destruct (initialise_all (r :: rs) (createWrapper identify sc1))
      as (Hw' & Hr' & _ & _ & Hsub' & Hin' & Hd' & Hsome').
    rewrite Hi in Hsub', Hd', Hsome'. rewrite Hp in Hr', Hd', Hsome'.
    split; [|split; [exact Hsub'|exact Hd']].
    unfold consistent. rewrite Hr', Hw', Hwp. cbn [sc1 page results].
    split; [exact Hin'|]. split; [apply Hsome'; exact Hsome|].
    cbn [sc1 wrapper] in Hold, Hnew. destruct (wrapper sc) as [p0|].
    + destruct (Hold p0 eq_refl) as [E1 E2]. unfold scriptListeners in *.
      now rewrite E1, E2.
    + now apply Hnew.
Qed.

Lemma withToggle_listeners (w : which) (p : Panel Exn K St) (t : Toggle.Toggle (Page Exn K St) Exn) :
  Toggle.events t = Toggle.events (toggleOf w p) ->
  scriptListeners identify p ->
  scriptListeners identify (withToggle w t p).
Proof.
  intros E [Hh Hf]. unfold scriptListeners.
  destruct w; cbn [withToggle toggleOf showHighlightToggle fixElementPropertiesToggle] in *;
    rewrite ?E; auto.
Qed.

Lemma clickToggle_keeps (w : which) sc :
  consistent identify sc ->
  consistent identify (clickToggle w sc) /\
  initialisedElements (clickToggle w sc) = initialisedElements sc /\
  (forall k name, datasetOf (page (clickToggle w sc)) k name = datasetOf (page sc) k name).
Proof.
  intros (Hres & Hsome & Hwr).
  destruct (wrapper sc) as [p|] eqn:Hw.
  - rewrite (clickToggle_writes w sc p Hw Hwr).
    match goal with |- context [applyWrites ?ws (page sc)] =>
      destruct (applyWrites_keeps ws (page sc)) as [Hr Hd] end.
    unfold consistent. cbn [page wrapper initialisedElements].
    split; [|split; [reflexivity|exact Hd]].
    rewrite Hr. split; [exact Hres|]. split.
    + intros k Hk. rewrite Hd. now apply Hsome.
    + apply withToggle_listeners; [|exact Hwr]. now rewrite click_unfold.
  - unfold clickToggle. rewrite Hw. unfold consistent. rewrite Hw. auto.
Qed.

Lemma act_keeps (a : action V Exn K) sc :
  consistent identify sc ->
  consistent identify (act identify sc a) /\
  initialisedElements sc ⊆ initialisedElements (act identify sc a) /\
  (forall k, k ∈ initialisedElements sc -> forall name,
     datasetOf (page (act identify sc a)) k name = datasetOf (page sc) k name).
Proof.
  intros Hc. destruct a as [d|w|k' prop value]; cbn [act].
  - now apply update_keeps.
  - destruct (clickToggle_keeps w sc Hc) as (Hc' & -> & Hd). auto.
  - destruct Hc as (Hres & Hsome & Hwr). unfold consistent.
    cbn [page wrapper initialisedElements]. rewrite results_setStyle.
    split; [|split; [reflexivity|intros k _ name; apply datasetOf_setStyle]].
    split; [exact Hres|]. split; [|exact Hwr].
    intros k Hk. rewrite datasetOf_setStyle. now apply Hsome.
Qed.

Lemma runActions_keeps (l : list (action V Exn K)) : forall sc,
  consistent identify sc ->
  consistent identify (runActions identify l sc) /\
  initialisedElements sc ⊆ initialisedElements (runActions identify l sc) /\
  (forall k, k ∈ initialisedElements sc -> forall name,
     datasetOf (page (runActions identify l sc)) k name = datasetOf (page sc) k name).
Proof.
  induction l as [|a l IH]; intros sc Hc; [simpl; auto|].
  change (runActions identify (a :: l) sc)
    with (runActions identify l (act identify sc a)).
  destruct (act_keeps a sc Hc) as (Hc1 & Hs1 & Hd1).
  destruct (IH _ Hc1) as (Hc2 & Hs2 & Hd2).
  split; [exact Hc2|]. split; [etransitivity; eassumption|].
  intros k Hk name. rewrite Hd2 by (eapply elem_of_weaken; eassumption). now apply Hd1.
Qed.

(** X25: whatever updates and clicks have happened since the script
    started, every element in [results] has been initialised, every
    initialised element has a recorded original box shadow, and as long as
    there is no panel [results] is empty. *)
Theorem X25_reported_elements_have_a_snapshot (l : list (action V Exn K)) :
  let sc := runActions identify l start in
  (forall res, In res (results (page sc)) ->
     identify (element res) ∈ initialisedElements sc) /\
  (forall k, k ∈ initialisedElements sc ->
     is_Some (datasetOf (page sc) k "originalBoxShadow")) /\
  (wrapper sc = None -> results (page sc) = []).
Proof.
  intros sc.
  destruct (runActions_keeps l start start_consistent) as ((Hres & Hsome & Hwr) & _).
  fold sc in Hres, Hsome, Hwr.
  split; [exact Hres|]. split; [exact Hsome|].
  intros Hw. now rewrite Hw in Hwr.
Qed.

(** X26: the set of initialised elements only grows, and the box shadow
    recorded for an element at its first detection is never replaced, by no
    later update and no click. *)
Theorem X26_snapshot_is_taken_once (l l' : list (action V Exn K)) :
  let sc := runActions identify l start in
  let sc' := runActions identify l' sc in
  initialisedElements sc ⊆ initialisedElements sc' /\
  forall k, k ∈ initialisedElements sc ->
    datasetOf (page sc') k "originalBoxShadow" = datasetOf (page sc) k "originalBoxShadow".
Proof.
  intros sc sc'.
  destruct (runActions_keeps l start start_consistent) as (Hc & _).
  destruct (runActions_keeps l' sc Hc) as (_ & Hsub & Hd).
  split; [exact Hsub|]. intros k Hk. now apply Hd.
Qed.

(** X27: a click on Highlight Elements, in any state the script can be in
    with its panel up, flips that toggle and makes one assignment to
    [style.boxShadow] for every element in [results], in the order of the
    results: the red box shadow when the toggle goes on, the box shadow
    recorded in the element's dataset when it goes off. Every element in
    [results] has that record, so [undefined] is never assigned. Nothing
    else on the page and nothing else in the script's variables changes. *)
Theorem X27_highlight_on_and_off (l : list (action V Exn K)) (p : Panel Exn K St) :
  let sc := runActions identify l start in
  let sc1 := clickToggle Highlight sc in
  wrapper sc = Some p ->
  (exists p1, wrapper sc1 = Some p1 /\
     Toggle.state (showHighlightToggle p1) = negb (Toggle.state (showHighlightToggle p)) /\
     fixElementPropertiesToggle p1 = fixElementPropertiesToggle p /\
     text p1 = text p) /\
  (forall res, In res (results (page sc)) ->
     is_Some (datasetOf (page sc) (identify (element res)) "originalBoxShadow")) /\
  page sc1 =
    applyWrites
      (List.map
         (fun res =>
            (identify (element res), "boxShadow",
             if Toggle.state (showHighlightToggle p)
             then styleString (datasetOf (page sc) (identify (element res))
                                 "originalBoxShadow")
             else highlightShadow))
         (results (page sc)))
      (page sc) /\
  initialisedElements sc1 = initialisedElements sc /\
  console sc1 = console sc.
Proof.
  intros sc sc1 Hw.
  destruct (runActions_keeps l start start_consistent) as ((Hres & Hsome & Hwr) & _).
  fold sc in Hres, Hsome, Hwr. rewrite Hw in Hwr.
  unfold sc1. rewrite (clickToggle_writes Highlight sc p Hw Hwr).
  cbn [page wrapper initialisedElements console toggleOf writesOf].
  split; [|split; [|split; [|split; reflexivity]]].
  - eexists. split; [reflexivity|]. cbn [withToggle showHighlightToggle
      fixElementPropertiesToggle text].
    rewrite click_unfold. auto.
  - intros res Hin. apply Hsome, Hres, Hin.
  - f_equal. unfold highlightWrites. apply map_ext. intros res.
    now destruct (Toggle.state (showHighlightToggle p)).
Qed.

(** X28: a click on Fix Properties, in any state the script can be in with
    its panel up, flips that toggle and makes one assignment to
    [style[key]] for every override of every element in [results], in the
    order of the results and of their overrides: the intended value when the
    toggle goes on, the empty string when it goes off. Nothing else on the
    page and nothing else in the script's variables changes. *)
Theorem X28_fix_on_and_off (l : list (action V Exn K)) (p : Panel Exn K St) :
  let sc := runActions identify l start in
  let sc1 := clickToggle Fix sc in
  wrapper sc = Some p ->
  (exists p1, wrapper sc1 = Some p1 /\
     Toggle.state (fixElementPropertiesToggle p1)
     = negb (Toggle.state (fixElementPropertiesToggle p)) /\
     showHighlightToggle p1 = showHighlightToggle p /\
     text p1 = text p) /\
  page sc1 =
    applyWrites
      (flat_map
         (fun res =>
            List.map
              (fun o =>
                 (identify (element res), key o,
                  if Toggle.state (fixElementPropertiesToggle p) then "" else before o))
              (overriddenProperties res))
         (results (page sc)))
      (page sc) /\
  initialisedElements sc1 = initialisedElements sc /\
  console sc1 = console sc.
Proof.
  intros sc sc1 Hw.
  destruct (runActions_keeps l start start_consistent) as ((_ & _ & Hwr) & _).
  fold sc in Hwr. rewrite Hw in Hwr.
  unfold sc1. rewrite (clickToggle_writes Fix sc p Hw Hwr).
  cbn [page wrapper initialisedElements console toggleOf writesOf].
  split; [|split; [|split; reflexivity]].
  - eexists. split; [reflexivity|]. cbn [withToggle showHighlightToggle
      fixElementPropertiesToggle text].
    rewrite click_unfold. auto.
  - f_equal. unfold fixWrites. apply flat_map_ext. intros res.
    apply map_ext. intros o.
    now destruct (Toggle.state (fixElementPropertiesToggle p)).
Qed.

End PresenterFacts.

(** ** The further properties at concrete pages *)

Section MoreInstances.

Import Demo DemoPanel.

Lemma C3_witness :
  computeOverriddenProperties marginRules =
    flat_map (fun i => match marginRules !! i with
                       | Some r => if isAuthorCandidate r
                                   then overridden marginRules i r else []
                       | None => []
                       end)
             (seq 0 2)
    ++ overridden marginRules 2 custom
    ++ computeOverriddenProperties ([legacy; filler] ++ bpkX :: []) /\
  overridesFor "margin" (overridden marginRules 2 custom) =
    [{| key := "margin"; before := "0"; after := "8px"; rule := ".Custom" |}] /\
  (In {| key := "margin"; before := "0"; after := "8px"; rule := ".Custom" |}
      (computeOverriddenProperties marginRules) <-> "0" <> "8px").
Proof.
  refine (C3_nearest_framework_rule [filler; filler] custom [legacy; filler] bpkX []
            "margin" (Unparsed "0") (Unparsed "8px") _ _ _ _ _ _).
  - reflexivity.
  - left. reflexivity.
  - simpl. constructor; [simpl; tauto|constructor].
  - reflexivity.
  - reflexivity.
  - constructor.
Defined.

Lemma C4_witness :
  isIrrelevant divRule = true /\
  computeOverriddenProperties ([card] ++ divRule :: [bpkButton]) =
  computeOverriddenProperties ([card] ++ [bpkButton]).
Proof.
  split; [reflexivity|].
  apply (proj2 (proj2 (proj2
           (C4_irrelevant_rule_only_shields [card] divRule [bpkButton] eq_refl)))).
  intros a R b P v Hpre HR Hin Hd Hpost.
  inversion Hpost as [|x l Hx _]; subst.
  destruct a as [|y [|z a]]; try discriminate Hpre.
  injection Hpre as <- <-.
  destruct Hin as [[= <- <-]|[]]. discriminate Hx.
Defined.

Lemma X2_witness : computeOverriddenProperties [card; legacy; divRule] = [].
Proof.
  apply (X2_no_framework_rule_no_override [card; legacy; divRule]).
  repeat constructor.
Defined.

Lemma X3_witness : "red" <> "blue".
Proof.
  apply (X3_before_differs_from_after cardRules
           {| key := "color"; before := "red"; after := "blue"; rule := ".Card" |}).
  vm_compute. left. reflexivity.
Defined.

Lemma X4_witness : List.NoDup (List.map key (overridden marginRules 2 custom)).
Proof.
  apply (X4_one_override_per_property marginRules 2 custom).
  simpl. constructor; [simpl; tauto|constructor].
Defined.

Lemma X5_witness :
  computeOverriddenProperties ([bpkButton; divRule] ++ cardRules) =
  computeOverriddenProperties cardRules.
Proof.
  apply (X5_leading_rules_have_no_effect [bpkButton; divRule] cardRules).
  repeat constructor.
Defined.

Lemma X6_witness :
  In {| key := "margin"; before := "0"; after := "8px"; rule := ".Custom" |}
     (computeOverriddenProperties ([filler; filler] ++ custom :: [legacy; filler] ++ bpkX :: [])).
Proof.
  refine (X6_override_is_reported [filler; filler] custom [legacy; filler] bpkX []
            "margin" (Unparsed "0") (Unparsed "8px") _ _ _ _ _ _).
  - reflexivity.
  - left. reflexivity.
  - reflexivity.
  - reflexivity.
  - constructor.
  - discriminate.
Defined.

Lemma X7_witness :
  findCssRulesIn cardDiv [brokenSheet; otherSheet]
    `sublist_of` findCssRules_perRuleRecovery cardDiv [brokenSheet; otherSheet] /\
  matches cardDiv (selectorText card) = Normal true.
Proof.
  split.
  - apply (proj1 (X7_found_rules_matched_in_order cardDiv [brokenSheet; otherSheet])).
  - apply (proj2 (X7_found_rules_matched_in_order cardDiv [brokenSheet; otherSheet]) card).
    vm_compute. left. reflexivity.
Defined.

Lemma X8_witness :
  findCssRulesIn cardDiv [goodSheet; crossOriginSheet; otherSheet] =
  findCssRules_perRuleRecovery cardDiv [goodSheet; crossOriginSheet; otherSheet].
Proof.
  apply (X8_all_matching_rules_found cardDiv [goodSheet; crossOriginSheet; otherSheet]).
  intros sheet rules r [<-|[<-|[<-|[]]]] Hs Hr; simpl in Hs; try discriminate Hs;
    injection Hs as <-; simpl in Hr;
    repeat (destruct Hr as [<-|Hr]; [eexists; reflexivity|]); destruct Hr.
Defined.

Lemma X9_witness :
  findCssRulesIn cardDiv ([goodSheet] ++ crossOriginSheet :: [otherSheet]) =
  findCssRulesIn cardDiv ([goodSheet] ++ [otherSheet]).
Proof.
  apply (X9_unreadable_sheet_is_skipped cardDiv [goodSheet] crossOriginSheet
           [otherSheet] "SecurityError").
  reflexivity.
Defined.

Lemma X10_witness :
  exists cn, In cn (classList (element cardResult)) /\ Str.startsWith cn "Bpk" = false.
Proof.
  apply (X10_results_have_own_class page cardResult).
  vm_compute. left. reflexivity.
Defined.

Lemma X13_witness : scan plainPage = [].
Proof.
  apply (X13_no_framework_rules_empty_scan plainPage).
  intros sheet rules r [<-|[<-|[]]] Hs Hr; simpl in Hs; try discriminate Hs.
  injection Hs as <-. destruct Hr as [<-|[]]. reflexivity.
Defined.

Lemma X14_witness :
  Emitter.send
    {| Emitter.handlers := <["change" := [addArg; failing; double; addArg]]>
                             (Emitter.handlers emitter) |}
    "change" [5] world0 =
  (Emitter.invoke [5] (fst (Emitter.send emitter "change" [5] world0)) addArg, Normal tt).
Proof.
  apply (X14_new_listener_runs_last emitter "change" addArg).
  - discriminate.
  - reflexivity.
Defined.

Lemma X15_witness :
  Emitter.send
    {| Emitter.handlers := <["change" := [addArg; failing; double; addArg]]>
                             (Emitter.handlers emitter) |}
    "click" [5] world0 =
  Emitter.send emitter "click" [5] world0.
Proof.
  apply (X15_on_leaves_other_events emitter "change" addArg).
  - reflexivity.
  - discriminate.
Defined.

Lemma X17_witness :
  Emitter.on (Emitter.create (S:=nat) (Data:=nat) (Exn:=exn)) "toString" addArg
    = Throw (Emitter.NotAFunction "push") /\
  Emitter.send (Emitter.create (S:=nat) (Data:=nat) (Exn:=exn)) "toString" [5] world0
    = (world0, Throw (Emitter.NotAFunction "forEach")).
Proof.
  apply (X17_inherited_names_throw Emitter.create "toString" addArg [5] world0).
  - constructor.
  - vm_compute. tauto.
Defined.

Lemma X19_witness :
  Watcher.scans (Watcher.run (Watcher.burst 3 ++ [Watcher.Wait 499]) Watcher.init) = 0.
Proof.
  apply (X19_no_scan_before_the_delay (Watcher.burst 3 ++ [Watcher.Wait 499])).
  reflexivity.
Defined.

Lemma X20_witness :
  Watcher.scans (Watcher.run (Watcher.burst 3) Watcher.init) = 0 /\
  Watcher.scans (Watcher.run (Watcher.burst 3 ++ [Watcher.Wait 700]) Watcher.init) = 1.
Proof.
  apply (X20_first_burst_scans_once 2 700). discriminate.
Defined.

Lemma X24_witness :
  Presenter.results (Presenter.page (Presenter.update ident plainPage afterUpdate)) = [] /\
  Presenter.wrapper (Presenter.update ident plainPage afterUpdate)
    = Presenter.wrapper afterUpdate.
Proof.
  apply (proj1 (X24_update_and_the_panel ident plainPage afterUpdate)).
  reflexivity.
Defined.

Lemma X25_witness :
  ident cardDiv ∈ Presenter.initialisedElements afterUpdate /\
  is_Some (Presenter.datasetOf (Presenter.page afterUpdate) (ident cardDiv) "originalBoxShadow").
Proof.
  assert (Hin : ident (element cardResult) ∈ Presenter.initialisedElements afterUpdate).
  { apply (proj1 (X25_reported_elements_have_a_snapshot ident [Presenter.Update page])
             cardResult).
    vm_compute. left. reflexivity. }
  split; [exact Hin|].
  apply (proj1 (proj2 (X25_reported_elements_have_a_snapshot ident [Presenter.Update page]))
           (ident cardDiv) Hin).
Defined.

Lemma X26_witness :
  ident cardDiv ∈ Presenter.initialisedElements afterUpdate /\
  Presenter.datasetOf
    (Presenter.page
       (Presenter.runActions ident
          [Presenter.PageSets "div.Card.Bpk_Button" "boxShadow" "0 0 1px black";
           Presenter.Click Presenter.Highlight; Presenter.Update page] afterUpdate))
    (ident cardDiv) "originalBoxShadow"
  = Presenter.datasetOf (Presenter.page afterUpdate) (ident cardDiv) "originalBoxShadow".
Proof.
  assert (Hin : ident cardDiv ∈ Presenter.initialisedElements afterUpdate).
  { vm_compute. reflexivity. }
  split; [exact Hin|].
  apply (proj2 (X26_snapshot_is_taken_once ident [Presenter.Update page]
                  [Presenter.PageSets "div.Card.Bpk_Button" "boxShadow" "0 0 1px black";
                   Presenter.Click Presenter.Highlight; Presenter.Update page])
           (ident cardDiv) Hin).
Defined.

Lemma X27_witness :
  exists p, Presenter.wrapper afterUpdate = Some p /\
    Presenter.page (Presenter.clickToggle Presenter.Highlight afterUpdate) =
    Presenter.applyWrites
      [(ident cardDiv, "boxShadow", Presenter.highlightShadow)]
      (Presenter.page afterUpdate).
Proof.
  eexists. split; [reflexivity|].
  exact (proj1 (proj2 (proj2
           (X27_highlight_on_and_off ident [Presenter.Update page] _ eq_refl)))).
Defined.

Lemma X28_witness :
  exists p, Presenter.wrapper afterUpdate = Some p /\
    Presenter.page (Presenter.clickToggle Presenter.Fix afterUpdate) =
    Presenter.applyWrites [(ident cardDiv, "color", "red")] (Presenter.page afterUpdate).
Proof.
  eexists. split; [reflexivity|].
  exact (proj1 (proj2 (X28_fix_on_and_off ident [Presenter.Update page] _ eq_refl))).
Defined.

End MoreInstances.
